(** * Rollback manager and configuration reuse index

    A shallow embedding of two scripts of the meta-automation-architect skill:

    - [rollback_manager.py]: class [RollbackManager], a per-session manifest
      of snapshotted and created files, and the rollback that consumes it;
    - [agent_reuse.py]: class [AgentReuseManager], a store of configuration
      records with an index, a similarity score and a similarity search.

    Conventions of the embedding.

    - Python dictionaries with a documented schema are records; a key that the
      code reads with [dict.get] is an [option] field.
    - The filesystem is explicit state.  A JSON document on disk is either
      [Parsed] or [Unparseable]; [json.load] raises on the latter.
    - [datetime.now()] is an input: every operation that reads the clock takes
      the formatted time as an argument.
    - A Python [float] is given by its exact value in [Q].  The score and
      the search come in two readings.  In the exact reading
      ([Reuse._calculate_similarity], [Reuse.round2]) no operation rounds;
      it carries the facts that do not depend on rounding.  In the binary64
      reading ([Reuse.Binary64]) every operation rounds its exact result to
      the nearest binary64 number, ties to even, as the interpreter does;
      it carries the facts about the values the code returns. *)

From Stdlib Require Import PrimFloat FloatOps SpecFloat.
From Stdlib Require Import QArith Qround Qminmax Qabs Qpower Lqa.
From stdpp Require Import gmap strings list pretty sorting.

#[local] Set Warnings "-clear-no-such-hyp,-inexact-float".
Local Open Scope string_scope.

(** A JSON document as [json.load] sees it. *)
Inductive document (A : Type) : Type :=
  | Parsed (a : A)
  | Unparseable.
Arguments Parsed {A} a.
Arguments Unparseable {A}.

(** What a call that may raise ends in: the value returned, or the exception
    that escaped.  State changes made before the exception stay. *)
Inductive outcome (A : Type) : Type :=
  | Returned (a : A)
  | Raised (exn : string).
Arguments Returned {A} a.
Arguments Raised {A} exn.

(* ===================================================================== *)
(** * rollback_manager.py *)
(* ===================================================================== *)

Module Rollback.

(** The manifest dictionary written by [create_backup]. *)
Record Manifest : Type := {
  backup_id : string;
  session_id : string;
  created_at : string;
  description : string;
  backed_up_files : list string;
  created_files : list string;
  can_rollback : bool;
  rolled_back_at : option string
}.

(** The part of the filesystem one [RollbackManager] touches.

    - [files]: the project tree, relative path to content;
    - [refused]: paths on which the operating system refuses [open] and
      [unlink] (permissions, immutable files): these calls raise [OSError];
    - [backups]: the snapshot tree, [backup_dir / backup_id / rel_path];
    - [manifest_json]: the document at [backup_dir / "manifest.json"].

    Paths are relative and normalised, so [str(rel_path)] is the path itself.
    Tracked paths lie in the project tree, outside [backup_dir]. *)
Record FileSystem : Type := {
  files : gmap string string;
  refused : gset string;
  backups : gmap (string * string) string;
  manifest_json : option (document Manifest)
}.

Definition set_files (f : gmap string string) (fs : FileSystem) : FileSystem :=
  {| files := f; refused := refused fs; backups := backups fs;
     manifest_json := manifest_json fs |}.

Definition set_backups (b : gmap (string * string) string) (fs : FileSystem)
  : FileSystem :=
  {| files := files fs; refused := refused fs; backups := b;
     manifest_json := manifest_json fs |}.

(** [Path(p).write_text(c)] by the caller, between tracking calls. *)
Definition write_text (p c : string) (fs : FileSystem) : FileSystem :=
  set_files (<[p := c]> (files fs)) fs.

(** [str(e)] of the [OSError] raised on a refused path. *)
Definition strerror (p : string) : string :=
  "[Errno 13] Permission denied: '" ++ p ++ "'".

(** [_load_manifest]: [None] when the document is missing, and also when it
    does not parse (the bare [except]). *)
Definition _load_manifest (fs : FileSystem) : option Manifest :=
  match manifest_json fs with
  | Some (Parsed m) => Some m
  | Some Unparseable => None
  | None => None
  end.

(** [_save_manifest]. *)
Definition _save_manifest (m : Manifest) (fs : FileSystem) : FileSystem :=
  {| files := files fs; refused := refused fs; backups := backups fs;
     manifest_json := Some (Parsed m) |}.

(** [create_backup]: [stamp] is [now().strftime("%Y%m%d_%H%M%S")], [iso] is
    [now().isoformat()].  Returns the backup id. *)
Definition create_backup (session stamp iso descr : string) (fs : FileSystem)
  : FileSystem * string :=
  let manifest :=
    {| backup_id := stamp; session_id := session; created_at := iso;
       description := descr; backed_up_files := []; created_files := [];
       can_rollback := true; rolled_back_at := None |} in
  (_save_manifest manifest fs, stamp).

Definition with_created_files (l : list string) (m : Manifest) : Manifest :=
  {| backup_id := backup_id m; session_id := session_id m;
     created_at := created_at m; description := description m;
     backed_up_files := backed_up_files m; created_files := l;
     can_rollback := can_rollback m; rolled_back_at := rolled_back_at m |}.

Definition with_backed_up_files (l : list string) (m : Manifest) : Manifest :=
  {| backup_id := backup_id m; session_id := session_id m;
     created_at := created_at m; description := description m;
     backed_up_files := l; created_files := created_files m;
     can_rollback := can_rollback m; rolled_back_at := rolled_back_at m |}.

(** The last three statements of [rollback] before its [return]. *)
Definition mark_rolled_back (iso : string) (m : Manifest) : Manifest :=
  {| backup_id := backup_id m; session_id := session_id m;
     created_at := created_at m; description := description m;
     backed_up_files := backed_up_files m; created_files := created_files m;
     can_rollback := false; rolled_back_at := Some iso |}.

(** [track_file_creation]. *)
Definition track_file_creation (file_path : string) (fs : FileSystem)
  : FileSystem :=
  match _load_manifest fs with
  | Some manifest =>
      let manifest :=
        if decide (file_path ∈ created_files manifest) then manifest
        else with_created_files (created_files manifest ++ [file_path]) manifest
      in
      _save_manifest manifest fs
  | None => fs
  end.

(** [backup_file_before_change].  [shutil.copy2] opens the source, so it
    raises on a refused path; nothing catches that here. *)
Definition backup_file_before_change (file_path : string) (fs : FileSystem)
  : FileSystem * outcome unit :=
  match _load_manifest fs with
  | None => (fs, Returned ())
  | Some manifest =>
      match files fs !! file_path with
      | None => (fs, Returned ())
      | Some content =>
          if decide (file_path ∈ refused fs)
          then (fs, Raised (strerror file_path))
          else
            let fs := set_backups
                        (<[(backup_id manifest, file_path) := content]>
                           (backups fs)) fs in
            let manifest :=
              if decide (file_path ∈ backed_up_files manifest) then manifest
              else with_backed_up_files
                     (backed_up_files manifest ++ [file_path]) manifest in
            (_save_manifest manifest fs, Returned ())
      end
  end.

(** The dictionary [rollback] returns.  The two early returns carry only
    [success = False] and a message. *)
Record Report : Type := {
  success : bool;
  files_restored : list string;
  files_deleted : list string;
  errors : list string;
  summary : string
}.

Inductive RollbackResult : Type :=
  | Failure (message : string)
  | Summary (r : Report).

(** The three messages [rollback] appends to [errors]. *)
Definition backup_not_found (file_path : string) : string :=
  "Backup not found: " ++ file_path.
Definition error_restoring (file_path : string) : string :=
  "Error restoring " ++ file_path ++ ": " ++ strerror file_path.
Definition error_deleting (file_path : string) : string :=
  "Error deleting " ++ file_path ++ ": " ++ strerror file_path.

(** The local variables of [rollback] that its two loops update. *)
Record Progress : Type := {
  disk : gmap string string;
  restored : list string;
  deleted : list string;
  errs : list string
}.

(** Body of the first loop: restore one snapshot, or record why not. *)
Definition restore_one (fs : FileSystem) (bid : string)
    (st : Progress) (file_path : string) : Progress :=
  match backups fs !! (bid, file_path) with
  | Some content =>
      if decide (file_path ∈ refused fs)
      then {| disk := disk st; restored := restored st; deleted := deleted st;
              errs := errs st ++
                [error_restoring file_path] |}
      else {| disk := <[file_path := content]> (disk st);
              restored := restored st ++ [file_path];
              deleted := deleted st; errs := errs st |}
  | None =>
      {| disk := disk st; restored := restored st; deleted := deleted st;
         errs := errs st ++ [backup_not_found file_path] |}
  end.

(** Body of the second loop: delete one created file if it is there. *)
Definition delete_one (fs : FileSystem) (st : Progress) (file_path : string)
  : Progress :=
  match disk st !! file_path with
  | Some _ =>
      if decide (file_path ∈ refused fs)
      then {| disk := disk st; restored := restored st; deleted := deleted st;
              errs := errs st ++
                [error_deleting file_path] |}
      else {| disk := delete file_path (disk st); restored := restored st;
              deleted := deleted st ++ [file_path]; errs := errs st |}
  | None => st
  end.

Definition run_loops (fs : FileSystem) (manifest : Manifest) : Progress :=
  let st := {| disk := files fs; restored := []; deleted := []; errs := [] |} in
  let st := foldl (restore_one fs (backup_id manifest)) st
                  (backed_up_files manifest) in
  foldl (delete_one fs) st (created_files manifest).

(** [rollback]; [iso] is [now().isoformat()]. *)
Definition rollback (iso : string) (fs : FileSystem)
  : FileSystem * RollbackResult :=
  match _load_manifest fs with
  | None => (fs, Failure "No backup found for this session")
  | Some manifest =>
      if negb (can_rollback manifest)
      then (fs, Failure "Rollback already performed or backup corrupted")
      else
        let st := run_loops fs manifest in
        let manifest := mark_rolled_back iso manifest in
        (_save_manifest manifest (set_files (disk st) fs),
         Summary
           {| success := bool_decide (length (errs st) = 0);
              files_restored := restored st;
              files_deleted := deleted st;
              errors := errs st;
              summary := "Restored " ++ pretty (length (restored st)) ++
                         " files, deleted " ++ pretty (length (deleted st)) ++
                         " files" |})
  end.

(** What a caller does with one manager during a session, after
    [create_backup]: the three methods that load the manifest, and writes to
    project files in between. *)
Inductive call : Type :=
  | CallTrackCreation (file_path : string)
  | CallTrackModification (file_path : string)
  | CallRollback (iso : string)
  | CallWriteText (file_path content : string).

Definition step (fs : FileSystem) (c : call) : FileSystem :=
  match c with
  | CallTrackCreation p => track_file_creation p fs
  | CallTrackModification p => (backup_file_before_change p fs).1
  | CallRollback iso => (rollback iso fs).1
  | CallWriteText p content => write_text p content fs
  end.

Definition run (calls : list call) (fs : FileSystem) : FileSystem :=
  foldl step fs calls.

(** ** Concrete sessions *)

(** A project with one file, before any backup. *)
Definition one_file_project : FileSystem :=
  {| files := {[ "a.txt" := "orig" ]}; refused := ∅; backups := ∅;
     manifest_json := None |}.

(** The session of the module's own example, with a manifest opened. *)
Definition session_opened : FileSystem :=
  (create_backup "test-session" "20250101_120000" "2025-01-01T12:00:00"
     "Test automation setup" one_file_project).1.

(** [a.txt] is tracked, rewritten, tracked again and rewritten again. *)
Definition tracked_twice : FileSystem :=
  let fs := (backup_file_before_change "a.txt" session_opened).1 in
  let fs := write_text "a.txt" "new" fs in
  let fs := (backup_file_before_change "a.txt" fs).1 in
  write_text "a.txt" "newer" fs.

(** The end-to-end session: [a.txt] is tracked while it holds ["orig"] and
    then overwritten; [b.txt] is created and tracked. *)
Definition end_to_end : FileSystem :=
  let fs := (backup_file_before_change "a.txt" session_opened).1 in
  let fs := write_text "a.txt" "new" fs in
  let fs := write_text "b.txt" "created" fs in
  track_file_creation "b.txt" fs.

(** A manifest whose rollback meets every kind of path: a snapshot to
    restore, a snapshot that is gone, a destination that refuses the write,
    a created file to delete, one already missing and one that refuses the
    unlink. *)
Definition mixed_manifest : Manifest :=
  {| backup_id := "20250101_120000"; session_id := "test-session";
     created_at := "2025-01-01T12:00:00"; description := "Automation setup";
     backed_up_files := ["a.txt"; "gone.txt"; "locked.txt"];
     created_files := ["b.txt"; "missing.txt"; "pinned.txt"];
     can_rollback := true; rolled_back_at := None |}.

Definition mixed_session : FileSystem :=
  {| files := {[ "a.txt" := "new"; "locked.txt" := "changed";
                 "b.txt" := "created"; "pinned.txt" := "created" ]};
     refused := {[ "locked.txt"; "pinned.txt" ]};
     backups := {[ ("20250101_120000", "a.txt") := "orig";
                   ("20250101_120000", "locked.txt") := "before" ]};
     manifest_json := Some (Parsed mixed_manifest) |}.

(** ** Reading the manifest *)

(** The dictionary [get_backup_info] returns. *)
Record BackupInfo : Type := {
  info_backup_id : string;
  info_created_at : string;
  info_description : string;
  backed_up_files_count : nat;
  created_files_count : nat;
  info_can_rollback : bool;
  info_total_changes : nat
}.

(** [get_backup_info]. *)
Definition get_backup_info (fs : FileSystem) : option BackupInfo :=
  match _load_manifest fs with
  | None => None
  | Some manifest =>
      Some {| info_backup_id := backup_id manifest;
              info_created_at := created_at manifest;
              info_description := description manifest;
              backed_up_files_count := length (backed_up_files manifest);
              created_files_count := length (created_files manifest);
              info_can_rollback := can_rollback manifest;
              info_total_changes :=
                length (backed_up_files manifest)
                + length (created_files manifest) |}
  end.

(** The dictionary [preview_rollback] returns when a manifest loads. *)
Record Preview : Type := {
  preview_can_rollback : bool;
  will_restore : list string;
  will_delete : list string;
  preview_total_changes : nat;
  preview_created_at : string;
  preview_description : string
}.

(** Without a manifest it returns [can_rollback = False] and a message. *)
Inductive PreviewResult : Type :=
  | NoPreview (message : string)
  | PreviewOf (p : Preview).

(** [preview_rollback]. *)
Definition preview_rollback (fs : FileSystem) : PreviewResult :=
  match _load_manifest fs with
  | None => NoPreview "No backup found"
  | Some manifest =>
      PreviewOf
        {| preview_can_rollback := can_rollback manifest;
           will_restore := backed_up_files manifest;
           will_delete := created_files manifest;
           preview_total_changes :=
             length (backed_up_files manifest)
             + length (created_files manifest);
           preview_created_at := created_at manifest;
           preview_description := description manifest |}
  end.

(** A file created and tracked, then changed and tracked as a
    modification: [b.txt] ends in both lists of the manifest. *)
Definition created_then_modified : FileSystem :=
  let fs := write_text "b.txt" "created" session_opened in
  let fs := track_file_creation "b.txt" fs in
  let fs := (backup_file_before_change "b.txt" fs).1 in
  write_text "b.txt" "changed" fs.

(** A path the first loop of [rollback] can restore: its snapshot is there
    and the destination accepts the write. *)
Definition restorable (fs : FileSystem) (bid p : string) : Prop :=
  is_Some (backups fs !! (bid, p)) ∧ p ∉ refused fs.

#[global] Instance restorable_dec fs bid p : Decision (restorable fs bid p).
Proof. unfold restorable. apply _. Defined.

(** A tracking call or a write that leaves the tracking of [p] as it is:
    not a tracking call on [p] itself, and not a rollback. *)
Definition keeps_tracking_of (p : string) (c : call) : Prop :=
  match c with
  | CallTrackCreation q => q ≠ p
  | CallTrackModification q => q ≠ p
  | CallRollback _ => False
  | CallWriteText _ _ => True
  end.

End Rollback.

(* ===================================================================== *)
(** * agent_reuse.py *)
(* ===================================================================== *)

Module Reuse.

(** The [config] argument of [save_configuration], with the keys its
    docstring lists.  [project_type], [project_name] and [tech_stack] are
    read with [dict.get] somewhere in the class, so they may be absent. *)
Record Config : Type := {
  project_type : option string;
  project_name : option string;
  tech_stack : option (list string);
  agents_used : list string;
  skills_generated : list string;
  commands_generated : list string;
  hooks_generated : list string;
  success_metrics : gmap string Z;
  user_satisfaction : Z
}.

(** [config_with_meta]: the payload and the three keys [save_configuration]
    adds.  This is the content of one [<config_id>.json]. *)
Record StoredConfig : Type := {
  payload : Config;
  config_id : string;
  created_at : string;
  reuse_count : Z
}.

(** One element of [index['configurations']]. *)
Record IndexEntry : Type := {
  ref_config_id : string;
  ref_project_type : string;
  ref_project_name : string;
  ref_tech_stack : list string;
  ref_created_at : string;
  ref_reuse_count : Z
}.

(** The [project_info] argument of the search. *)
Record ProjectInfo : Type := {
  info_project_type : option string;
  info_tech_stack : option (list string);
  existing_tools : list string
}.

(** An [AgentReuseManager] and the directory it owns: [index] is
    [self.index['configurations']], held in memory; [index_json] is the
    document at [index_path]; [config_json] maps a configuration id to the
    document at [storage_dir / f"{config_id}.json"]. *)
Record Manager : Type := {
  index : list IndexEntry;
  index_json : option (document (list IndexEntry));
  config_json : gmap string (document StoredConfig)
}.

(** [_load_index], on the directory alone. *)
Definition _load_index (on_disk : option (document (list IndexEntry)))
  : list IndexEntry :=
  match on_disk with
  | Some (Parsed configurations) => configurations
  | Some Unparseable => []
  | None => []
  end.

(** [__init__]. *)
Definition init (on_disk : option (document (list IndexEntry)))
    (docs : gmap string (document StoredConfig)) : Manager :=
  {| index := _load_index on_disk; index_json := on_disk; config_json := docs |}.

(** [_save_index] after the in-memory list became [l]. *)
Definition _save_index (l : list IndexEntry) (m : Manager) : Manager :=
  {| index := l; index_json := Some (Parsed l); config_json := config_json m |}.

(** [_save_configuration]. *)
Definition _save_configuration (id : string) (config : StoredConfig)
    (m : Manager) : Manager :=
  {| index := index m; index_json := index_json m;
     config_json := <[id := Parsed config]> (config_json m) |}.

(** [_load_configuration]: [None] for a missing document and, through the
    bare [except], for one that does not parse. *)
Definition _load_configuration (id : string) (m : Manager)
  : option StoredConfig :=
  match config_json m !! id with
  | None => None
  | Some (Parsed config) => Some config
  | Some Unparseable => None
  end.

(** [save_configuration]; [stamp] and [iso] are the two readings of the
    clock.  The full record is written first; [config['project_type']] then
    raises [KeyError] when the key is absent, before the index changes. *)
Definition save_configuration (stamp iso : string) (config : Config)
    (m : Manager) : Manager * outcome string :=
  let config_id := stamp in
  let config_with_meta :=
    {| payload := config; config_id := config_id; created_at := iso;
       reuse_count := 0 |} in
  let m := _save_configuration config_id config_with_meta m in
  match project_type config with
  | None => (m, Raised "KeyError: 'project_type'")
  | Some ptype =>
      let entry :=
        {| ref_config_id := config_id;
           ref_project_type := ptype;
           ref_project_name := default "unknown" (project_name config);
           ref_tech_stack := default [] (tech_stack config);
           ref_created_at := iso;
           ref_reuse_count := 0 |} in
      (_save_index (index m ++ [entry]) m, Returned config_id)
  end.

(** The [weights] dictionary.  The [size] weight is never used. *)
Definition weight_project_type : Q := (4 # 10)%Q.
Definition weight_tech_stack : Q := (4 # 10)%Q.
Definition weight_size : Q := (2 # 10)%Q.

(** Truth value of a set: non-empty. *)
Definition truthy (s : gset string) : bool := negb (bool_decide (s = ∅)).

(** [_calculate_similarity], exact reading: no operation rounds. *)
Definition _calculate_similarity (project_info : ProjectInfo)
    (config : StoredConfig) : Q :=
  let score : Q := 0%Q in
  let score :=
    if decide (info_project_type project_info = project_type (payload config))
    then (score + weight_project_type)%Q else score in
  let project_stack : gset string :=
    list_to_set (default [] (info_tech_stack project_info)) in
  let config_stack : gset string :=
    list_to_set (default [] (tech_stack (payload config))) in
  let score :=
    if truthy project_stack && truthy config_stack then
      let intersection := size (project_stack ∩ config_stack) in
      let union := size (project_stack ∪ config_stack) in
      let tech_similarity : Q :=
        if decide (0 < union)%nat
        then (Z.of_nat intersection # Pos.of_nat union)%Q else 0%Q in
      (score + weight_tech_stack * tech_similarity)%Q
    else score in
  Qmin score 1%Q.

(** [round(x, 0)] as an integer: nearest, ties to even. *)
Definition round_half_even (x : Q) : Z :=
  let lo := Qfloor x in
  match (x - inject_Z lo ?= 1 # 2)%Q with
  | Lt => lo
  | Gt => (lo + 1)%Z
  | Eq => if Z.even lo then lo else (lo + 1)%Z
  end.

(** [round(x, 2)], exact reading, in lowest terms. *)
Definition round2 (x : Q) : Q :=
  Qred (round_half_even (x * 100)%Q # 100)%Q.

(** One element of the list the search returns: [**config_ref] and the two
    added keys. *)
Record Similar : Type := {
  config_ref : IndexEntry;
  similarity : Q;
  full_config : StoredConfig
}.

(** Body of the loop of [find_similar_configurations]. *)
Definition consider (m : Manager) (project_info : ProjectInfo)
    (min_similarity : Q) (similar : list Similar) (ref : IndexEntry)
  : list Similar :=
  match _load_configuration (ref_config_id ref) m with
  | None => similar
  | Some config =>
      let sim := _calculate_similarity project_info config in
      if Qle_bool min_similarity sim
      then similar ++ [ {| config_ref := ref; similarity := round2 sim;
                           full_config := config |} ]
      else similar
  end.

(** [list.sort(key=lambda x: x['similarity'], reverse=True)].  Python's sort
    is stable, also with [reverse=True]: a stable insertion sort with the
    larger key first.  [place x l] puts [x] in front of the first element
    whose key is not larger than its own. *)
Fixpoint place (x : Similar) (l : list Similar) : list Similar :=
  match l with
  | [] => [x]
  | y :: l' =>
      if Qle_bool (similarity y) (similarity x) then x :: y :: l'
      else y :: place x l'
  end.

Definition sort_by_similarity_desc (l : list Similar) : list Similar :=
  foldr place [] l.

(** What the loop appends for one index entry, if anything. *)
Definition candidate (m : Manager) (project_info : ProjectInfo)
    (min_similarity : Q) (ref : IndexEntry) : option Similar :=
  match _load_configuration (ref_config_id ref) m with
  | None => None
  | Some config =>
      let sim := _calculate_similarity project_info config in
      if Qle_bool min_similarity sim
      then Some {| config_ref := ref; similarity := round2 sim;
                   full_config := config |}
      else None
  end.

(** The order the sort establishes: the larger key first. *)
Definition before (a b : Similar) : Prop := (similarity b <= similarity a)%Q.

(** The elements of a list whose key is [s], in the order of the list. *)
Definition with_key (s : Q) (l : list Similar) : list Similar :=
  List.filter (fun r => Qeq_bool (similarity r) s) l.

(** [find_similar_configurations], exact reading. *)
Definition find_similar_configurations (project_info : ProjectInfo)
    (min_similarity : Q) (m : Manager) : list Similar :=
  let similar := foldl (consider m project_info min_similarity) [] (index m) in
  sort_by_similarity_desc similar.

Definition bump (config : StoredConfig) : StoredConfig :=
  {| payload := payload config; config_id := config_id config;
     created_at := created_at config;
     reuse_count := (reuse_count config + 1)%Z |}.

Definition bump_ref (id : string) (cfg : IndexEntry) : IndexEntry :=
  if decide (ref_config_id cfg = id)
  then {| ref_config_id := ref_config_id cfg;
          ref_project_type := ref_project_type cfg;
          ref_project_name := ref_project_name cfg;
          ref_tech_stack := ref_tech_stack cfg;
          ref_created_at := ref_created_at cfg;
          ref_reuse_count := (ref_reuse_count cfg + 1)%Z |}
  else cfg.

(** [reuse_configuration]. *)
Definition reuse_configuration (id : string) (m : Manager)
  : Manager * option StoredConfig :=
  match _load_configuration id m with
  | None => (m, None)
  | Some config =>
      let config := bump config in
      let m := _save_configuration id config m in
      let m := _save_index (bump_ref id <$> index m) m in
      (m, Some config)
  end.

(** [reuse_configuration] called [n] times on one identifier. *)
Definition reuse_times (n : nat) (id : string) (m : Manager) : Manager :=
  Nat.iter n (fun m => (reuse_configuration id m).1) m.

(** ** The score as the specification words it *)






(** A stored record passed as the [project_info] argument, as in
    [score(A, A)]: the two keys the score reads from it. *)
Definition as_project_info (config : StoredConfig) : ProjectInfo :=
  {| info_project_type := project_type (payload config);
     info_tech_stack := tech_stack (payload config);
     existing_tools := [] |}.

(** ** Concrete stores *)

Definition plain_config (ptype name : string) (stack : list string) : Config :=
  {| project_type := Some ptype; project_name := Some name;
     tech_stack := Some stack; agents_used := []; skills_generated := [];
     commands_generated := []; hooks_generated := [];
     success_metrics := ∅; user_satisfaction := 5 |}.

(** Record A of the specification's example, and the store that holds it. *)
Definition record_A : Config :=
  {| project_type := Some "programming"; project_name := Some "my-web-app";
     tech_stack := Some ["TypeScript"; "React"; "Next"];
     agents_used := ["project-analyzer"; "security-analyzer"];
     skills_generated := ["security-scanner"; "test-generator"];
     commands_generated := ["/security-check"];
     hooks_generated := ["pre-commit-security"];
     success_metrics := {[ "time_saved" := 50%Z; "issues_prevented" := 3%Z ]};
     user_satisfaction := 5 |}.

Definition stored_A : StoredConfig :=
  {| payload := record_A; config_id := "20250101_120000";
     created_at := "2025-01-01T12:00:00"; reuse_count := 0 |}.

Definition store_A : Manager :=
  (save_configuration "20250101_120000" "2025-01-01T12:00:00" record_A
     (init None ∅)).1.

Definition entry_A : IndexEntry :=
  {| ref_config_id := "20250101_120000"; ref_project_type := "programming";
     ref_project_name := "my-web-app";
     ref_tech_stack := ["TypeScript"; "React"; "Next"];
     ref_created_at := "2025-01-01T12:00:00"; ref_reuse_count := 0 |}.

Definition query_Q : ProjectInfo :=
  {| info_project_type := Some "programming";
     info_tech_stack := Some ["TypeScript"; "React"; "Vite"];
     existing_tools := ["ESLint"] |}.

(** A store with one record of three technologies, and a query that shares
    one of them and not the project type: the score is 0.4 / 3. *)
Definition store_third : Manager :=
  (save_configuration "20250102_090000" "2025-01-02T09:00:00"
     (plain_config "data" "etl" ["a"; "b"; "c"]) (init None ∅)).1.

Definition query_a : ProjectInfo :=
  {| info_project_type := Some "programming"; info_tech_stack := Some ["a"];
     existing_tools := [] |}.

(** A store with a record of ten technologies saved before one of nine:
    against [query_a] the scores are 0.4 / 10 and 0.4 / 9. *)
Definition store_tenth_ninth : Manager :=
  let m := (save_configuration "20250103_090000" "2025-01-03T09:00:00"
              (plain_config "data" "ten"
                 ["a"; "b"; "c"; "d"; "e"; "f"; "g"; "h"; "i"; "j"])
              (init None ∅)).1 in
  (save_configuration "20250103_100000" "2025-01-03T10:00:00"
     (plain_config "data" "nine"
        ["a"; "b"; "c"; "d"; "e"; "f"; "g"; "h"; "i"]) m).1.

(** A directory where the document of one configuration and the index
    document are both unparseable. *)
Definition corrupt_store : Manager :=
  init (Some Unparseable) {[ "20250101_120000" := Unparseable ]}.

(** ** Recommendation and statistics *)



(** Body of the loop of [get_statistics] that counts project types: the key
    is set to 0 when it is new, then incremented. *)
Definition count_type (project_types : gmap string nat) (cfg : IndexEntry)
  : gmap string nat :=
  let ptype := ref_project_type cfg in
  let project_types :=
    if decide (project_types !! ptype = None)
    then <[ptype := 0%nat]> project_types else project_types in
  alter S ptype project_types.

(** [sorted(..., key=lambda x: x['reuse_count'], reverse=True)]: stable,
    the larger count first. *)
Fixpoint place_ref (x : IndexEntry) (l : list IndexEntry) : list IndexEntry :=
  match l with
  | [] => [x]
  | y :: l' =>
      if (ref_reuse_count y <=? ref_reuse_count x)%Z then x :: y :: l'
      else y :: place_ref x l'
  end.

Definition sort_by_reuse_desc (l : list IndexEntry) : list IndexEntry :=
  foldr place_ref [] l.

(** ** Binary64 arithmetic *)

(** [floor (log2 x)] for a positive [x]: with [a] and [b] the bit lengths of
    numerator and denominator, it is [a - b] or one less. *)
Definition ilog2 (x : Q) : Z :=
  let e := (Z.log2 (Qnum x) - Z.log2 (Z.pos (Qden x)))%Z in
  if Qle_bool (2 ^ e) x then e else (e - 1)%Z.

(** The binary64 number nearest to [x], ties to even: a significand of 53
    bits, in units of a power of two that is at least [2 ^ -1074] (below
    [2 ^ -1022] the numbers are subnormal).  The result is in lowest terms.
    No value of the class comes near [2 ^ 1024], so overflow is left out. *)
Definition binary64 (x : Q) : Q :=
  if Qeq_bool x 0 then 0%Q
  else
    let quantum := (2 ^ Z.max (ilog2 (Qabs x) - 52) (-1074))%Q in
    Qred (inject_Z (round_half_even (x / quantum)) * quantum).

(** [x + y], [x * y] and [x / y] on floats; [i / j] on integers is [fdiv]
    of their values, Python's true division being correctly rounded. *)
Definition fadd (x y : Q) : Q := binary64 (x + y).
Definition fmul (x y : Q) : Q := binary64 (x * y).
Definition fdiv (x y : Q) : Q := binary64 (x / y).

(** [round(x, ndigits)] on a float: the exact value of [x] is rounded to
    [ndigits] decimals, ties to even, and the decimal is read back as the
    nearest float. *)
Definition py_round (x : Q) (ndigits : nat) : Q :=
  let p := inject_Z (10 ^ Z.of_nat ndigits) in
  binary64 (inject_Z (round_half_even (x * p)) / p).

(** The exact value of a primitive float of the proof assistant, to compare
    [binary64] with the floating-point unit. *)
Definition exact_value (f : float) : Q :=
  match Prim2SF f with
  | S754_finite s m e =>
      Qred ((if s then -1 else 1) * inject_Z (Z.pos m) * 2 ^ e)
  | _ => 0%Q
  end.

(** ** The score and the search in binary64 *)

Module Binary64.

(** The [weights] dictionary: each literal is the float nearest to it. *)
Definition weight_project_type : Q := binary64 (4 # 10).
Definition weight_tech_stack : Q := binary64 (4 # 10).
Definition weight_size : Q := binary64 (2 # 10).

(** [_calculate_similarity]: every operation rounds to a float. *)
Definition _calculate_similarity (project_info : ProjectInfo)
    (config : StoredConfig) : Q :=
  let score : Q := 0%Q in
  let score :=
    if decide (info_project_type project_info = project_type (payload config))
    then fadd score weight_project_type else score in
  let project_stack : gset string :=
    list_to_set (default [] (info_tech_stack project_info)) in
  let config_stack : gset string :=
    list_to_set (default [] (tech_stack (payload config))) in
  let score :=
    if truthy project_stack && truthy config_stack then
      let intersection := size (project_stack ∩ config_stack) in
      let union := size (project_stack ∪ config_stack) in
      let tech_similarity : Q :=
        if decide (0 < union)%nat
        then fdiv (inject_Z (Z.of_nat intersection))
                  (inject_Z (Z.of_nat union))
        else 0%Q in
      fadd score (fmul weight_tech_stack tech_similarity)
    else score in
  Qmin score 1%Q.

(** [round(x, 2)]. *)
Definition round2 (x : Q) : Q := py_round x 2.

(** Body of the loop of [find_similar_configurations]. *)
Definition consider (m : Manager) (project_info : ProjectInfo)
    (min_similarity : Q) (similar : list Similar) (ref : IndexEntry)
  : list Similar :=
  match _load_configuration (ref_config_id ref) m with
  | None => similar
  | Some config =>
      let sim := _calculate_similarity project_info config in
      if Qle_bool min_similarity sim
      then similar ++ [ {| config_ref := ref; similarity := round2 sim;
                           full_config := config |} ]
      else similar
  end.

(** What the loop appends for one index entry, if anything. *)
Definition candidate (m : Manager) (project_info : ProjectInfo)
    (min_similarity : Q) (ref : IndexEntry) : option Similar :=
  match _load_configuration (ref_config_id ref) m with
  | None => None
  | Some config =>
      let sim := _calculate_similarity project_info config in
      if Qle_bool min_similarity sim
      then Some {| config_ref := ref; similarity := round2 sim;
                   full_config := config |}
      else None
  end.

(** [find_similar_configurations]; [min_similarity] is a float. *)
Definition find_similar_configurations (project_info : ProjectInfo)
    (min_similarity : Q) (m : Manager) : list Similar :=
  let similar := foldl (consider m project_info min_similarity) [] (index m) in
  sort_by_similarity_desc similar.

End Binary64.

(** [round(x, 1)]. *)
Definition round1 (x : Q) : Q := py_round x 1.

(** The dictionary [get_statistics] returns. *)
Record Statistics : Type := {
  total_configurations : nat;
  total_reuses : Z;
  average_reuses : Q;
  project_types : gmap string nat;
  most_reused : list IndexEntry
}.

(** [get_statistics]. *)
Definition get_statistics (m : Manager) : Statistics :=
  let total_configs := length (index m) in
  let total_reuses := foldr Z.add 0%Z (ref_reuse_count <$> index m) in
  let project_types := foldl count_type ∅ (index m) in
  {| total_configurations := total_configs;
     total_reuses := total_reuses;
     average_reuses :=
       if decide (0 < total_configs)%nat
       then round1 (fdiv (inject_Z total_reuses)
                         (inject_Z (Z.of_nat total_configs)))
       else 0%Q;
     project_types := project_types;
     most_reused := take 3 (sort_by_reuse_desc (index m)) |}.

(** ** Sequences of calls on one manager *)

Inductive request : Type :=
  | SaveConfiguration (stamp iso : string) (config : Config)
  | ReuseConfiguration (id : string).

Definition serve (m : Manager) (r : request) : Manager :=
  match r with
  | SaveConfiguration stamp iso config =>
      (save_configuration stamp iso config m).1
  | ReuseConfiguration id => (reuse_configuration id m).1
  end.

Definition serve_all (requests : list request) (m : Manager) : Manager :=
  foldl serve m requests.

(** The index entries that carry identifier [id]. *)
Definition entries_of (id : string) (l : list IndexEntry) : list IndexEntry :=
  filter (λ e, ref_config_id e = id) l.

(** The index entries of project type [ptype]. *)
Definition entries_of_type (ptype : string) (l : list IndexEntry)
  : list IndexEntry :=
  filter (λ e, ref_project_type e = ptype) l.

(** The order [sort_by_reuse_desc] establishes. *)
Definition reused_more (a b : IndexEntry) : Prop :=
  (ref_reuse_count b ≤ ref_reuse_count a)%Z.



(** The record and the index entry [save_configuration] builds. *)
Definition new_record (stamp iso : string) (config : Config) : StoredConfig :=
  {| payload := config; config_id := stamp; created_at := iso;
     reuse_count := 0 |}.

Definition new_entry (stamp iso ptype : string) (config : Config)
  : IndexEntry :=
  {| ref_config_id := stamp;
     ref_project_type := ptype;
     ref_project_name := default "unknown" (project_name config);
     ref_tech_stack := default [] (tech_stack config);
     ref_created_at := iso;
     ref_reuse_count := 0 |}.

(** What one call of [reuse_configuration id] does to an element of a search
    result: the count of its index entry and of its full record go up by one
    when the entry carries [id]. *)
Definition reused (id : string) (r : Similar) : Similar :=
  {| config_ref := bump_ref id (config_ref r);
     similarity := similarity r;
     full_config := if decide (ref_config_id (config_ref r) = id)
                    then bump (full_config r) else full_config r |}.

(** Identifier and reported similarity of each result, in order. *)
Definition ranking (l : list Similar) : list (string * Q) :=
  (λ r, (ref_config_id (config_ref r), similarity r)) <$> l.

(** Two stores on which the exact and the binary64 reading part.  In the
    first a record of twenty technologies is saved before one of sixteen;
    against [query_data_a], of the same project type and sharing one
    technology with each, the scores are 0.4 + 0.4 / 20 and
    0.4 + 0.4 / 16.  In the second the record has ten technologies, seven of
    them those of [query_seven]. *)
Definition store_twenty_sixteen : Manager :=
  let m := (save_configuration "20250104_090000" "2025-01-04T09:00:00"
              (plain_config "data" "twenty"
                 ["a"; "b"; "c"; "d"; "e"; "f"; "g"; "h"; "i"; "j";
                  "k"; "l"; "m"; "n"; "o"; "p"; "q"; "r"; "s"; "t"])
              (init None ∅)).1 in
  (save_configuration "20250104_100000" "2025-01-04T10:00:00"
     (plain_config "data" "sixteen"
        ["a"; "b"; "c"; "d"; "e"; "f"; "g"; "h"; "i"; "j";
         "k"; "l"; "m"; "n"; "o"; "p"]) m).1.

Definition query_data_a : ProjectInfo :=
  {| info_project_type := Some "data"; info_tech_stack := Some ["a"];
     existing_tools := [] |}.

Definition store_ten : Manager :=
  (save_configuration "20250105_090000" "2025-01-05T09:00:00"
     (plain_config "data" "ten"
        ["a"; "b"; "c"; "d"; "e"; "f"; "g"; "h"; "i"; "j"])
     (init None ∅)).1.

Definition query_seven : ProjectInfo :=
  {| info_project_type := Some "data";
     info_tech_stack := Some ["a"; "b"; "c"; "d"; "e"; "f"; "g"];
     existing_tools := [] |}.

(** A payload without the [project_type] key. *)
Definition config_without_type : Config :=
  {| project_type := None; project_name := Some "untyped";
     tech_stack := Some ["TypeScript"]; agents_used := [];
     skills_generated := []; commands_generated := [];
     hooks_generated := []; success_metrics := ∅; user_satisfaction := 3 |}.

(** A second save in the second in which record A was saved. *)
Definition store_same_second : Manager :=
  (save_configuration "20250101_120000" "2025-01-01T12:00:00.700000"
     (plain_config "data" "etl" ["Python"]) store_A).1.

End Reuse.

(* ===================================================================== *)
(** * Facts about the rollback manager *)
(* ===================================================================== *)

Module RollbackFacts.
Import Rollback.

Section Loops.
Variable fs : FileSystem.
Variable bid : string.

(** The first loop, one more path at the end of the list. *)
Lemma restore_snoc st l p :
  foldl (restore_one fs bid) st (l ++ [p])
  = restore_one fs bid (foldl (restore_one fs bid) st l) p.
Proof. by rewrite foldl_app. Qed.

Lemma delete_snoc st l p :
  foldl (delete_one fs) st (l ++ [p])
  = delete_one fs (foldl (delete_one fs) st l) p.
Proof. by rewrite foldl_app. Qed.

(** The first loop deletes nothing. *)
Lemma restore_deleted st l :
  deleted (foldl (restore_one fs bid) st l) = deleted st.
Proof.
  induction l as [|p l IH] using rev_ind; [done|].
  rewrite restore_snoc. unfold restore_one.
  destruct (backups fs !! (bid, p)); [case_decide|]; simpl; done.
Qed.

(** Content of a path after the first loop. *)
Lemma restore_disk st l q :
  disk (foldl (restore_one fs bid) st l) !! q
  = match backups fs !! (bid, q) with
    | Some content =>
        if decide (q ∈ l ∧ q ∉ refused fs) then Some content
        else disk st !! q
    | None => disk st !! q
    end.
Proof.
  induction l as [|p l IH] using rev_ind.
  - cbn [foldl]. destruct (backups fs !! (bid, q)); [|done].
    case_decide as H; [|done]. destruct H as [H _]. by apply elem_of_nil in H.
  - rewrite restore_snoc. unfold restore_one at 1.
    destruct (backups fs !! (bid, p)) as [c|] eqn:Hp.
    + destruct (decide (p ∈ refused fs)) as [Hr|Hr]; simpl.
      * rewrite IH. destruct (backups fs !! (bid, q)); [|done].
        apply decide_ext. set_solver.
      * destruct (decide (p = q)) as [->|Hne].
        -- rewrite lookup_insert_eq, Hp.
           rewrite decide_True by set_solver. done.
        -- rewrite lookup_insert_ne by done. rewrite IH.
           destruct (backups fs !! (bid, q)); [|done].
           apply decide_ext. set_solver.
    + simpl. rewrite IH.
      destruct (backups fs !! (bid, q)) eqn:Hq; [|done].
      apply decide_ext.
      assert (p ≠ q) by congruence. set_solver.
Qed.

(** Which paths the first loop reports as restored. *)
Lemma restore_restored st l q :
  q ∈ restored (foldl (restore_one fs bid) st l)
  ↔ q ∈ restored st
    ∨ (q ∈ l ∧ is_Some (backups fs !! (bid, q)) ∧ q ∉ refused fs).
Proof.
  induction l as [|p l IH] using rev_ind.
  - cbn [foldl]. set_solver.
  - rewrite restore_snoc. unfold restore_one at 1.
    destruct (backups fs !! (bid, p)) as [c|] eqn:Hp.
    + destruct (decide (p ∈ refused fs)) as [Hr|Hr]; simpl.
      * rewrite IH. set_solver.
      * rewrite elem_of_app, IH.
        assert (is_Some (backups fs !! (bid, p))) by (by rewrite Hp).
        set_solver.
    + simpl. rewrite IH.
      assert (¬ is_Some (backups fs !! (bid, p)))
        by (rewrite Hp; by intros [? ?]).
      set_solver.
Qed.

(** Which messages the first loop appends. *)
Lemma restore_errs st l e :
  e ∈ errs (foldl (restore_one fs bid) st l)
  ↔ e ∈ errs st
    ∨ ∃ p, p ∈ l
         ∧ ((backups fs !! (bid, p) = None ∧ e = backup_not_found p)
            ∨ (is_Some (backups fs !! (bid, p)) ∧ p ∈ refused fs
               ∧ e = error_restoring p)).
Proof.
  induction l as [|p l IH] using rev_ind.
  - cbn [foldl]. set_solver.
  - rewrite restore_snoc. unfold restore_one at 1.
    destruct (backups fs !! (bid, p)) as [c|] eqn:Hp.
    + assert (is_Some (backups fs !! (bid, p))) as Hs by (by rewrite Hp).
      destruct (decide (p ∈ refused fs)) as [Hr|Hr]; simpl.
      * rewrite elem_of_app, IH. split.
        -- intros [[?|(p'&?&?)]|He]; [by left|right; exists p'; set_solver|].
           right. exists p. set_solver.
        -- intros [?|(p'&[Hin|Hin]%elem_of_app&Hd)]; [by left; left| |].
           ++ left; right. by exists p'.
           ++ apply list_elem_of_singleton in Hin as ->.
              destruct Hd as [[Hn _]|(_&_&->)]; [congruence|set_solver].
      * rewrite IH. split.
        -- intros [?|(p'&?&?)]; [by left|right; exists p'; set_solver].
        -- intros [?|(p'&[Hin|Hin]%elem_of_app&Hd)]; [by left| |].
           ++ right. by exists p'.
           ++ apply list_elem_of_singleton in Hin as ->.
              destruct Hd as [[Hn _]|(_&?&_)]; [congruence|done].
    + simpl. rewrite elem_of_app, IH. split.
      * intros [[?|(p'&?&?)]|He]; [by left|right; exists p'; set_solver|].
        right. exists p. set_solver.
      * intros [?|(p'&[Hin|Hin]%elem_of_app&Hd)]; [by left; left| |].
        -- left; right. by exists p'.
        -- apply list_elem_of_singleton in Hin as ->.
           destruct Hd as [[_ ->]|([? Hc]&_)]; [set_solver|congruence].
Qed.

(** The second loop restores nothing. *)
Lemma delete_restored st l :
  restored (foldl (delete_one fs) st l) = restored st.
Proof.
  induction l as [|p l IH] using rev_ind; [done|].
  rewrite delete_snoc. unfold delete_one.
  destruct (disk _ !! p); [case_decide|]; simpl; done.
Qed.

(** Content of a path after the second loop. *)
Lemma delete_disk st l q :
  disk (foldl (delete_one fs) st l) !! q
  = if decide (q ∈ l ∧ q ∉ refused fs) then None else disk st !! q.
Proof.
  induction l as [|p l IH] using rev_ind.
  - cbn [foldl]. rewrite decide_False; [done|]. set_solver.
  - rewrite delete_snoc. unfold delete_one at 1.
    destruct (disk (foldl (delete_one fs) st l) !! p) as [c|] eqn:Hp.
    + destruct (decide (p ∈ refused fs)) as [Hr|Hr]; simpl.
      * rewrite IH. apply decide_ext. set_solver.
      * destruct (decide (p = q)) as [->|Hne].
        -- rewrite lookup_delete_eq. rewrite decide_True by set_solver. done.
        -- rewrite lookup_delete_ne by done. rewrite IH.
           apply decide_ext. set_solver.
    + rewrite IH. destruct (decide (p = q)) as [->|Hne].
      * rewrite IH in Hp.
        destruct (decide (q ∈ l ∧ q ∉ refused fs)) as [Hl|Hl].
        -- rewrite decide_True by set_solver. done.
        -- by case_decide.
      * apply decide_ext. set_solver.
Qed.

(** Which messages the second loop appends: one for each created file
    that is there and cannot be unlinked. *)
Lemma delete_errs st l e :
  e ∈ errs (foldl (delete_one fs) st l)
  ↔ e ∈ errs st
    ∨ ∃ p, p ∈ l ∧ p ∈ refused fs ∧ is_Some (disk st !! p)
           ∧ e = error_deleting p.
Proof.
  induction l as [|p l IH] using rev_ind.
  - cbn [foldl]. set_solver.
  - rewrite delete_snoc. unfold delete_one at 1.
    pose proof (delete_disk st l p) as Hmid.
    destruct (disk (foldl (delete_one fs) st l) !! p) as [c|] eqn:Hp.
    + destruct (decide (p ∈ refused fs)) as [Hr|Hr]; simpl.
      * rewrite decide_False in Hmid by tauto.
        assert (is_Some (disk st !! p)) as Hs by (by rewrite <- Hmid).
        rewrite elem_of_app, IH. split.
        -- intros [[?|(p'&?&?)]|He]; [by left|right; exists p'; set_solver|].
           right. exists p. set_solver.
        -- intros [?|(p'&[Hin|Hin]%elem_of_app&Hd)]; [by left; left| |].
           ++ left; right. by exists p'.
           ++ apply list_elem_of_singleton in Hin as ->.
              destruct Hd as (_&_&->). set_solver.
      * rewrite IH. split.
        -- intros [?|(p'&?&?)]; [by left|right; exists p'; set_solver].
        -- intros [?|(p'&[Hin|Hin]%elem_of_app&Hd)]; [by left| |].
           ++ right. by exists p'.
           ++ apply list_elem_of_singleton in Hin as ->. tauto.
    + rewrite IH. split.
      * intros [?|(p'&?&?)]; [by left|right; exists p'; set_solver].
      * intros [?|(p'&[Hin|Hin]%elem_of_app&Hd)]; [by left| |].
        -- right. by exists p'.
        -- apply list_elem_of_singleton in Hin as ->.
           destruct Hd as (Hr&[? Hs]&_).
           rewrite decide_False in Hmid by tauto. congruence.
Qed.

End Loops.

(** ** The two loops together *)

Section RunLoops.
Variable fs : FileSystem.
Variable m : Manifest.

Lemma run_loops_restored q :
  q ∈ restored (run_loops fs m)
  ↔ q ∈ backed_up_files m ∧ is_Some (backups fs !! (backup_id m, q))
    ∧ q ∉ refused fs.
Proof.
  unfold run_loops. rewrite delete_restored, restore_restored. simpl.
  set_solver.
Qed.

(** A refused path keeps its content through both loops. *)
Lemma run_loops_refused q :
  q ∈ refused fs → disk (run_loops fs m) !! q = files fs !! q.
Proof.
  intros Hr. unfold run_loops. rewrite delete_disk, restore_disk. simpl.
  rewrite decide_False by tauto.
  destruct (backups fs !! _); [|done]. by rewrite decide_False by tauto.
Qed.

(** A created path that can be unlinked is gone. *)
Lemma run_loops_created q :
  q ∈ created_files m → q ∉ refused fs → disk (run_loops fs m) !! q = None.
Proof.
  intros Hc Hr. unfold run_loops. rewrite delete_disk.
  by rewrite decide_True.
Qed.

(** A snapshotted path that is not also a created one has its snapshot
    content. *)
Lemma run_loops_snapshot q content :
  q ∈ backed_up_files m → q ∉ created_files m → q ∉ refused fs →
  backups fs !! (backup_id m, q) = Some content →
  disk (run_loops fs m) !! q = Some content.
Proof.
  intros Hb Hc Hr Hs. unfold run_loops. rewrite delete_disk, restore_disk.
  rewrite decide_False by tauto. rewrite Hs. by rewrite decide_True.
Qed.

(** Every message in [errors], and where it comes from. *)
Lemma run_loops_errs e :
  e ∈ errs (run_loops fs m)
  ↔ (∃ p, p ∈ backed_up_files m
          ∧ backups fs !! (backup_id m, p) = None
          ∧ e = backup_not_found p)
    ∨ (∃ p, p ∈ backed_up_files m
            ∧ is_Some (backups fs !! (backup_id m, p))
            ∧ p ∈ refused fs ∧ e = error_restoring p)
    ∨ (∃ p, p ∈ created_files m ∧ p ∈ refused fs
            ∧ is_Some (files fs !! p) ∧ e = error_deleting p).
Proof.
  unfold run_loops. rewrite delete_errs, restore_errs. simpl. split.
  - intros [[Hn|(p&?&[[??]|(?&?&?)])]|(p&?&Hr&Hs&?)].
    + by apply elem_of_nil in Hn.
    + left. by exists p.
    + right; left. by exists p.
    + right; right. exists p. repeat split; try done.
      rewrite restore_disk in Hs. simpl in Hs.
      destruct (backups fs !! _); [|done].
      by rewrite decide_False in Hs by tauto.
  - intros [(p&?&?&?)|[(p&?&?&?&?)|(p&?&Hr&Hs&?)]].
    + left; right. exists p. tauto.
    + left; right. exists p. tauto.
    + right. exists p. repeat split; try done.
      rewrite restore_disk. simpl.
      destruct (backups fs !! _); [|done].
      by rewrite decide_False by tauto.
Qed.

End RunLoops.

(** ** Tracking a modification *)

Lemma backup_returns fs m p content :
  _load_manifest fs = Some m → files fs !! p = Some content →
  p ∉ refused fs →
  ∃ m', backup_file_before_change p fs
        = (_save_manifest m'
             (set_backups (<[(backup_id m, p) := content]> (backups fs)) fs),
           Returned ())
      ∧ backup_id m' = backup_id m ∧ can_rollback m' = can_rollback m
      ∧ created_files m' = created_files m ∧ p ∈ backed_up_files m'.
Proof.
  intros Hm Hf Hr. unfold backup_file_before_change. rewrite Hm, Hf.
  rewrite decide_False by done.
  destruct (decide (p ∈ backed_up_files m)) as [Hin|Hin].
  - by exists m.
  - exists (with_backed_up_files (backed_up_files m ++ [p]) m).
    simpl. set_solver.
Qed.

(** The snapshot is taken at every call: a second call on the same path
    replaces the first snapshot, and rollback writes the second one back. *)
Lemma second_snapshot_replaces_first iso fs m p c1 c2 c3 :
  _load_manifest fs = Some m → can_rollback m = true →
  files fs !! p = Some c1 → p ∉ refused fs → p ∉ created_files m →
  let fs1 := (backup_file_before_change p fs).1 in
  let fs2 := (backup_file_before_change p (write_text p c2 fs1)).1 in
  backups fs1 !! (backup_id m, p) = Some c1
  ∧ backups fs2 !! (backup_id m, p) = Some c2
  ∧ files (rollback iso (write_text p c3 fs2)).1 !! p = Some c2.
Proof.
  intros Hm Hcan Hf Hr Hc.
  destruct (backup_returns fs m p c1 Hm Hf Hr) as (m1 & E1 & Hid1 & Hcan1 & Hc1 & _).
  rewrite E1. cbn [fst].
  set (fs1 := _save_manifest m1 _).
  assert (_load_manifest (write_text p c2 fs1) = Some m1) as Hm1 by done.
  assert (files (write_text p c2 fs1) !! p = Some c2) as Hf1
    by (simpl; apply lookup_insert_eq).
  destruct (backup_returns _ m1 p c2 Hm1 Hf1 Hr) as (m2 & E2 & Hid2 & Hcan2 & Hc2 & Hin2).
  rewrite E2. cbn [fst].
  split; [simpl; apply lookup_insert_eq|].
  split; [simpl; rewrite Hid1; apply lookup_insert_eq|].
  unfold rollback. cbn [_load_manifest write_text set_files _save_manifest
                        manifest_json].
  rewrite Hcan2, Hcan1, Hcan. cbn [negb fst files set_files].
  apply run_loops_snapshot; try done.
  - by rewrite Hc2, Hc1.
  - simpl. rewrite Hid2, Hid1. apply lookup_insert_eq.
Qed.

(** ** Rollback *)

Lemma rollback_consumed iso fs m :
  _load_manifest fs = Some m → can_rollback m = false →
  rollback iso fs
  = (fs, Failure "Rollback already performed or backup corrupted").
Proof. intros Hm Hc. unfold rollback. by rewrite Hm, Hc. Qed.

Lemma rollback_fresh iso fs m :
  _load_manifest fs = Some m → can_rollback m = true →
  (rollback iso fs).1
  = _save_manifest (mark_rolled_back iso m)
      (set_files (disk (run_loops fs m)) fs).
Proof. intros Hm Hc. unfold rollback. by rewrite Hm, Hc. Qed.

(** A manifest that has been rolled back stays so under every call. *)
Lemma step_keeps_consumed fs c :
  can_rollback <$> _load_manifest fs = Some false →
  can_rollback <$> _load_manifest (step fs c) = Some false.
Proof.
  intros H. destruct (_load_manifest fs) as [m|] eqn:Hm; [|done].
  injection H as Hc.
  destruct c as [p|p|iso|p content]; cbn [step].
  - unfold track_file_creation. rewrite Hm.
    case_decide; cbn; by rewrite Hc.
  - unfold backup_file_before_change. rewrite Hm.
    destruct (files fs !! p); [|by cbn [fst]; rewrite Hm; cbn; rewrite Hc].
    case_decide; [by cbn [fst]; rewrite Hm; cbn; rewrite Hc|].
    case_decide; cbn; by rewrite Hc.
  - rewrite (rollback_consumed _ _ _ Hm Hc). cbn [fst]. rewrite Hm. cbn.
    by rewrite Hc.
  - unfold write_text, _load_manifest in *. cbn.
    destruct (manifest_json fs) as [[?|]|]; try done.
    injection Hm as ->. cbn. by rewrite Hc.
Qed.

Lemma run_keeps_consumed calls fs :
  can_rollback <$> _load_manifest fs = Some false →
  can_rollback <$> _load_manifest (run calls fs) = Some false.
Proof.
  revert fs. induction calls as [|c calls IH]; intros fs H; [done|].
  cbn. apply IH. by apply step_keeps_consumed.
Qed.

(** ** Properties of a session *)

(** The end-to-end session rolls back as expected: [a.txt] reads ["orig"]
    again, [b.txt] is gone, [can_rollback] is false and the report is a
    success. *)
Example end_to_end_rollback :
  let after := rollback "2025-01-01T12:30:00" end_to_end in
  files after.1 !! "a.txt" = Some "orig"
  ∧ files after.1 !! "b.txt" = None
  ∧ can_rollback <$> _load_manifest after.1 = Some false
  ∧ match after.2 with Summary r => success r | Failure _ => false end = true.
Proof. repeat split; vm_compute; reflexivity. Qed.

(** The report of the mixed session: one file restored, one deleted, and
    the three failures collected. *)
Example mixed_session_report :
  (rollback "2025-01-01T12:30:00" mixed_session).2
  = Summary
      {| success := false;
         files_restored := ["a.txt"];
         files_deleted := ["b.txt"];
         errors := [backup_not_found "gone.txt";
                    error_restoring "locked.txt";
                    error_deleting "pinned.txt"];
         summary := "Restored 1 files, deleted 1 files" |}.
Proof. vm_compute. reflexivity. Qed.

(** C1.  [track_modification] called twice on one path, the file rewritten
    in between, should roll back to the content observed at the first call.
    Here [a.txt] holds ["orig"] at the first call and ["new"] at the second.
    The first call snapshots ["orig"]; the second call overwrites that
    snapshot with ["new"]; rollback then writes ["new"] back, not
    ["orig"]. *)
Theorem track_twice_rolls_back_to_second :
  backups (backup_file_before_change "a.txt" session_opened).1
    !! ("20250101_120000", "a.txt") = Some "orig"
  ∧ backups tracked_twice !! ("20250101_120000", "a.txt") = Some "new"
  ∧ files tracked_twice !! "a.txt" = Some "newer"
  ∧ files (rollback "2025-01-01T12:30:00" tracked_twice).1 !! "a.txt"
    = Some "new".
Proof. repeat split; vm_compute; reflexivity. Qed.

(** C2.  Rollback is one-shot: the first rollback of a manifest turns
    [can_rollback] from true to false; after it, whatever tracking calls,
    file writes and rollbacks follow, [can_rollback] stays false and every
    further rollback returns the failure ["Rollback already performed or
    backup corrupted"] and leaves manifest and filesystem as they were. *)
Theorem rollback_is_one_shot iso fs m :
  _load_manifest fs = Some m → can_rollback m = true →
  can_rollback <$> _load_manifest (rollback iso fs).1 = Some false
  ∧ ∀ calls iso',
      can_rollback <$> _load_manifest (run calls (rollback iso fs).1)
      = Some false
      ∧ rollback iso' (run calls (rollback iso fs).1)
        = (run calls (rollback iso fs).1,
           Failure "Rollback already performed or backup corrupted").
Proof.
  intros Hm Hc.
  assert (can_rollback <$> _load_manifest (rollback iso fs).1 = Some false)
    as H1 by (by rewrite (rollback_fresh _ _ _ Hm Hc)).
  split; [done|]. intros calls iso'.
  pose proof (run_keeps_consumed calls _ H1) as H2.
  split; [done|].
  destruct (_load_manifest (run calls (rollback iso fs).1)) as [m'|] eqn:Hm';
    [|done].
  injection H2 as Hc'. by apply rollback_consumed with m'.
Qed.

Lemma rollback_is_one_shot_witness :
  _load_manifest mixed_session = Some mixed_manifest
  ∧ can_rollback mixed_manifest = true
  ∧ rollback "later"
      (run [CallTrackModification "a.txt"; CallTrackCreation "c.txt"]
           (rollback "now" mixed_session).1)
    = (run [CallTrackModification "a.txt"; CallTrackCreation "c.txt"]
           (rollback "now" mixed_session).1,
       Failure "Rollback already performed or backup corrupted").
Proof.
  split; [reflexivity|]. split; [reflexivity|].
  apply (rollback_is_one_shot "now" mixed_session mixed_manifest
           eq_refl eq_refl).
Defined.

(** C3.  With [can_rollback] true, rollback goes through every path of both
    lists and never stops at a failure.  Each snapshotted path is restored,
    or its failure is in [errors] (snapshot gone, or the write refused).
    Each created path is deleted if it is there; a missing one adds no error;
    a refused unlink adds one.  [errors] holds nothing else.  Whatever
    failed, the manifest is saved with [can_rollback] false and
    [rolled_back_at] stamped, and [success] is true exactly when [errors] is
    empty. *)
Theorem rollback_attempts_every_path iso fs m :
  _load_manifest fs = Some m → can_rollback m = true →
  ∃ r,
    (rollback iso fs).2 = Summary r
    ∧ _load_manifest (rollback iso fs).1 = Some (mark_rolled_back iso m)
    ∧ can_rollback (mark_rolled_back iso m) = false
    ∧ rolled_back_at (mark_rolled_back iso m) = Some iso
    ∧ (success r = true ↔ errors r = [])
    ∧ (∀ p, p ∈ backed_up_files m →
         match backups fs !! (backup_id m, p) with
         | None => backup_not_found p ∈ errors r
         | Some _ =>
             if decide (p ∈ refused fs) then error_restoring p ∈ errors r
             else p ∈ files_restored r
         end)
    ∧ (∀ p content, p ∈ backed_up_files m → p ∉ created_files m →
         p ∉ refused fs → backups fs !! (backup_id m, p) = Some content →
         files (rollback iso fs).1 !! p = Some content)
    ∧ (∀ p, p ∈ created_files m →
         if decide (p ∈ refused fs)
         then files (rollback iso fs).1 !! p = files fs !! p
              ∧ (is_Some (files fs !! p) → error_deleting p ∈ errors r)
         else files (rollback iso fs).1 !! p = None)
    ∧ (∀ e, e ∈ errors r ↔
         (∃ p, p ∈ backed_up_files m
               ∧ backups fs !! (backup_id m, p) = None
               ∧ e = backup_not_found p)
         ∨ (∃ p, p ∈ backed_up_files m
                 ∧ is_Some (backups fs !! (backup_id m, p))
                 ∧ p ∈ refused fs ∧ e = error_restoring p)
         ∨ (∃ p, p ∈ created_files m ∧ p ∈ refused fs
                 ∧ is_Some (files fs !! p) ∧ e = error_deleting p)).
Proof.
  intros Hm Hc. unfold rollback. rewrite Hm, Hc. cbn [negb fst snd].
  eexists. split; [reflexivity|]. cbn [errors success files_restored].
  split; [done|]. split; [done|]. split; [done|].
  split.
  { rewrite bool_decide_eq_true. split.
    - by intros ?%nil_length_inv.
    - by intros ->. }
  split.
  { intros p Hp. destruct (backups fs !! (backup_id m, p)) as [c|] eqn:Hb.
    - case_decide.
      + apply run_loops_errs. right; left. exists p. by rewrite Hb.
      + apply run_loops_restored. by rewrite Hb.
    - apply run_loops_errs. left. by exists p. }
  split.
  { intros p content ? ? ? ?. cbn. by apply run_loops_snapshot. }
  split.
  { intros p Hp. case_decide as Hr; cbn.
    - split; [by apply run_loops_refused|].
      intros Hs. apply run_loops_errs. right; right. by exists p.
    - by apply run_loops_created. }
  apply run_loops_errs.
Qed.

Lemma rollback_attempts_every_path_witness :
  _load_manifest mixed_session = Some mixed_manifest
  ∧ can_rollback mixed_manifest = true
  ∧ ∃ r, (rollback "now" mixed_session).2 = Summary r
         ∧ (success r = true ↔ errors r = []).
Proof.
  split; [reflexivity|]. split; [reflexivity|].
  destruct (rollback_attempts_every_path "now" mixed_session mixed_manifest
              eq_refl eq_refl) as (r & Hr & _ & _ & _ & Hs & _).
  exists r. split; assumption.
Defined.

(** C10.  Tracking a modification of a path that is not on disk changes
    nothing: no snapshot, no entry in the manifest, no write of the manifest
    document, and the call returns normally. *)
Theorem track_missing_file_is_noop file_path fs :
  files fs !! file_path = None →
  backup_file_before_change file_path fs = (fs, Returned ()).
Proof.
  intros Hf. unfold backup_file_before_change.
  destruct (_load_manifest fs); [|done]. by rewrite Hf.
Qed.

Lemma track_missing_file_is_noop_witness :
  files session_opened !! "absent.txt" = None
  ∧ backup_file_before_change "absent.txt" session_opened
    = (session_opened, Returned ()).
Proof.
  split; [reflexivity|].
  apply (track_missing_file_is_noop "absent.txt" session_opened eq_refl).
Defined.

(** ** What the report lists *)

Lemma restore_one_restored fs bid st p :
  restored (restore_one fs bid st p)
  = (restored st ++ if decide (restorable fs bid p) then [p] else [])%list.
Proof.
  destruct (decide (restorable fs bid p)) as [[[c Hs] Hr]|Hn];
    unfold restore_one.
  - rewrite Hs. by rewrite decide_False.
  - rewrite app_nil_r. destruct (backups fs !! (bid, p)) eqn:Hb; [|done].
    case_decide; [done|]. destruct Hn. by split; [rewrite Hb|].
Qed.

(** The first loop reports exactly the restorable paths, in manifest
    order. *)
Lemma restore_restored_filter fs bid st l :
  restored (foldl (restore_one fs bid) st l)
  = (restored st ++ filter (restorable fs bid) l)%list.
Proof.
  revert st. induction l as [|p l IH]; intros st; cbn [foldl].
  - by rewrite app_nil_r.
  - rewrite IH, restore_one_restored, filter_cons.
    case_decide; [|by rewrite app_nil_r].
    by rewrite <- app_assoc.
Qed.

(** Each path of the first loop ends in [restored] or adds one error. *)
Lemma restore_lengths fs bid st l :
  (length (restored (foldl (restore_one fs bid) st l))
   + length (errs (foldl (restore_one fs bid) st l))
   = length (restored st) + length (errs st) + length l)%nat.
Proof.
  revert st. induction l as [|p l IH]; intros st; cbn [foldl length]; [lia|].
  rewrite IH. unfold restore_one.
  destruct (backups fs !! (bid, p)); [case_decide|]; simpl;
    rewrite ?length_app; simpl; lia.
Qed.

(** The second loop appends to [deleted] a subsequence of its paths, and
    each path adds at most one entry to [deleted] or to the errors. *)
Lemma delete_shape fs st l :
  ∃ k, deleted (foldl (delete_one fs) st l) = (deleted st ++ k)%list
       ∧ k `sublist_of` l
       ∧ (length k + length (errs (foldl (delete_one fs) st l))
          ≤ length (errs st) + length l)%nat.
Proof.
  revert st. induction l as [|p l IH]; intros st; cbn [foldl].
  - exists []. rewrite app_nil_r. simpl. repeat split; [done|lia].
  - destruct (IH (delete_one fs st p)) as (k & Hk & Hs & Hl).
    unfold delete_one in Hk, Hl |- *.
    destruct (disk st !! p); [destruct (decide (p ∈ refused fs))|];
      simpl in Hk, Hl |- *.
    + exists k. rewrite Hk. split; [done|]. split; [by apply sublist_cons|].
      rewrite length_app in Hl. simpl in Hl. lia.
    + exists (p :: k). rewrite Hk, <- app_assoc. split; [done|].
      split; [by apply sublist_skip|]. simpl. lia.
    + exists k. rewrite Hk. split; [done|]. split; [by apply sublist_cons|].
      lia.
Qed.

Lemma delete_deleted fs st l q :
  q ∈ deleted (foldl (delete_one fs) st l)
  ↔ q ∈ deleted st ∨ (q ∈ l ∧ is_Some (disk st !! q) ∧ q ∉ refused fs).
Proof.
  induction l as [|p l IH] using rev_ind.
  - cbn [foldl]. set_solver.
  - rewrite delete_snoc. unfold delete_one at 1.
    pose proof (delete_disk fs st l p) as Hmid.
    destruct (disk (foldl (delete_one fs) st l) !! p) as [c|] eqn:Hp.
    + destruct (decide (p ∈ refused fs)) as [Hr|Hr]; simpl.
      * rewrite IH. set_solver.
      * destruct (decide (p ∈ l ∧ p ∉ refused fs)); [done|].
        assert (is_Some (disk st !! p)) by (by rewrite <- Hmid).
        rewrite elem_of_app, IH. set_solver.
    + rewrite IH. split; [set_solver|].
      intros [?|([Hin|Hin]%elem_of_app & Hs & Hr)]; [by left|by right|].
      apply list_elem_of_singleton in Hin as ->.
      destruct (decide (p ∈ l ∧ p ∉ refused fs)) as [[? ?]|Hn].
      * right. done.
      * destruct Hs as [? Hs]. congruence.
Qed.

Section Report.
Variable fs : FileSystem.
Variable m : Manifest.

Lemma run_loops_restored_filter :
  restored (run_loops fs m)
  = filter (restorable fs (backup_id m)) (backed_up_files m).
Proof.
  unfold run_loops. by rewrite delete_restored, restore_restored_filter.
Qed.

Lemma run_loops_deleted_sublist :
  deleted (run_loops fs m) `sublist_of` created_files m.
Proof.
  unfold run_loops.
  destruct (delete_shape fs
              (foldl (restore_one fs (backup_id m))
                 {| disk := files fs; restored := []; deleted := [];
                    errs := [] |} (backed_up_files m))
              (created_files m)) as (k & -> & Hs & _).
  by rewrite restore_deleted.
Qed.

Lemma run_loops_lengths :
  (length (restored (run_loops fs m)) + length (deleted (run_loops fs m))
   + length (errs (run_loops fs m))
   ≤ length (backed_up_files m) + length (created_files m))%nat.
Proof.
  unfold run_loops.
  set (st0 := {| disk := files fs; restored := []; deleted := [];
                 errs := [] |}).
  set (st1 := foldl (restore_one fs (backup_id m)) st0 (backed_up_files m)).
  pose proof (restore_lengths fs (backup_id m) st0 (backed_up_files m)) as H1.
  fold st1 in H1. simpl in H1.
  destruct (delete_shape fs st1 (created_files m)) as (k & Hk & _ & H2).
  rewrite delete_restored, Hk. subst st1.
  rewrite restore_deleted in *. simpl in *. lia.
Qed.

Lemma run_loops_both q :
  q ∈ backed_up_files m → q ∈ created_files m → q ∉ refused fs →
  is_Some (backups fs !! (backup_id m, q)) →
  q ∈ restored (run_loops fs m) ∧ q ∈ deleted (run_loops fs m).
Proof.
  intros Hb Hc Hr Hs. split; [by apply run_loops_restored|].
  unfold run_loops. apply delete_deleted. right.
  split; [done|]. split; [|done].
  rewrite restore_disk. destruct Hs as [c ->]. simpl.
  by rewrite decide_True.
Qed.

(** A path in neither list keeps its content. *)
Lemma run_loops_untracked q :
  q ∉ backed_up_files m → q ∉ created_files m →
  disk (run_loops fs m) !! q = files fs !! q.
Proof.
  intros Hb Hc. unfold run_loops. rewrite delete_disk, restore_disk. simpl.
  rewrite decide_False by tauto.
  destruct (backups fs !! _); [|done]. by rewrite decide_False by tauto.
Qed.

End Report.

Lemma rollback_summary iso fs m r :
  _load_manifest fs = Some m → (rollback iso fs).2 = Summary r →
  can_rollback m = true
  ∧ files_restored r = restored (run_loops fs m)
  ∧ files_deleted r = deleted (run_loops fs m)
  ∧ errors r = errs (run_loops fs m)
  ∧ files (rollback iso fs).1 = disk (run_loops fs m)
  ∧ success r = bool_decide (errs (run_loops fs m) = []).
Proof.
  intros Hm. unfold rollback. rewrite Hm.
  destruct (can_rollback m); cbn [negb snd fst]; [|done].
  intros [= <-]. cbn. repeat split.
  apply bool_decide_ext. split; [apply nil_length_inv|by intros ->].
Qed.

Lemma filter_all {A} (P : A → Prop) `{∀ x, Decision (P x)} (l : list A) :
  Forall P l → filter P l = l.
Proof.
  induction 1 as [|x l Hx _ IH]; [done|].
  rewrite filter_cons, decide_True by done. by rewrite IH.
Qed.

(** ** More properties of rollback *)

(** X1.  The report stays within the preview: when [preview_rollback] shows
    a manifest and [rollback] runs its loops, [can_rollback] was previewed
    true, [files_restored] is a subsequence of [will_restore],
    [files_deleted] a subsequence of [will_delete], and restored, deleted
    and failed paths together number at most [total_changes]. *)
Theorem report_within_preview iso fs pv r :
  preview_rollback fs = PreviewOf pv → (rollback iso fs).2 = Summary r →
  preview_can_rollback pv = true
  ∧ files_restored r `sublist_of` will_restore pv
  ∧ files_deleted r `sublist_of` will_delete pv
  ∧ (length (files_restored r) + length (files_deleted r)
     + length (errors r) ≤ preview_total_changes pv)%nat.
Proof.
  unfold preview_rollback.
  destruct (_load_manifest fs) as [m|] eqn:Hm; [|done].
  intros [= <-] Hr. cbn.
  destruct (rollback_summary iso fs m r Hm Hr) as (Hc & -> & -> & -> & _).
  split; [done|]. split; [|split].
  - rewrite run_loops_restored_filter. apply sublist_filter.
  - apply run_loops_deleted_sublist.
  - apply run_loops_lengths.
Qed.

Lemma report_within_preview_witness :
  ∃ pv r, preview_rollback mixed_session = PreviewOf pv
          ∧ (rollback "now" mixed_session).2 = Summary r
          ∧ (length (files_restored r) + length (files_deleted r)
             + length (errors r) ≤ preview_total_changes pv)%nat.
Proof.
  eexists _, _. split; [reflexivity|]. split; [reflexivity|].
  eapply (report_within_preview "now" mixed_session); reflexivity.
Defined.

(** X2.  A rollback that reports success is complete: every path of
    [backed_up_files] is in [files_restored], in manifest order; every
    created path is absent afterwards; and every snapshotted path that is
    not also a created one holds its snapshot content. *)
Theorem successful_rollback_is_complete iso fs m r :
  _load_manifest fs = Some m → (rollback iso fs).2 = Summary r →
  success r = true →
  files_restored r = backed_up_files m
  ∧ (∀ p, p ∈ created_files m → files (rollback iso fs).1 !! p = None)
  ∧ (∀ p, p ∈ backed_up_files m → p ∉ created_files m →
          is_Some (backups fs !! (backup_id m, p))
          ∧ files (rollback iso fs).1 !! p = backups fs !! (backup_id m, p)).
Proof.
  intros Hm Hr Hok.
  destruct (rollback_summary iso fs m r Hm Hr)
    as (Hc & -> & _ & _ & -> & Hs).
  rewrite Hs in Hok. apply bool_decide_eq_true in Hok.
  assert (∀ e, e ∉ errs (run_loops fs m)) as Hnone
    by (intros e; rewrite Hok; apply not_elem_of_nil).
  assert (∀ p, p ∈ backed_up_files m → restorable fs (backup_id m) p) as Hall.
  { intros p Hp. split.
    - destruct (backups fs !! (backup_id m, p)) eqn:Hb; [done|].
      destruct (Hnone (backup_not_found p)).
      apply run_loops_errs. left. by exists p.
    - intros Href.
      destruct (backups fs !! (backup_id m, p)) eqn:Hb.
      + destruct (Hnone (error_restoring p)).
        apply run_loops_errs. right; left. exists p. by rewrite Hb.
      + destruct (Hnone (backup_not_found p)).
        apply run_loops_errs. left. by exists p. }
  split; [|split].
  - rewrite run_loops_restored_filter. apply filter_all.
    by apply Forall_forall.
  - intros p Hp. destruct (decide (p ∈ refused fs)) as [Href|Href].
    + rewrite run_loops_refused by done.
      destruct (files fs !! p) eqn:Hf; [|done].
      destruct (Hnone (error_deleting p)).
      apply run_loops_errs. right; right. exists p. by rewrite Hf.
    + by apply run_loops_created.
  - intros p Hp Hnc. destruct (Hall p Hp) as [[c Hb] Href].
    split; [by rewrite Hb|]. rewrite Hb. by apply run_loops_snapshot.
Qed.

Lemma successful_rollback_is_complete_witness :
  ∃ m r, _load_manifest end_to_end = Some m
         ∧ (rollback "now" end_to_end).2 = Summary r
         ∧ success r = true
         ∧ files_restored r = backed_up_files m.
Proof.
  eexists _, _. split; [reflexivity|]. split; [reflexivity|].
  split; [reflexivity|].
  eapply (successful_rollback_is_complete "now" end_to_end); reflexivity.
Defined.

(** X3.  Rollback touches tracked paths only: a path that is in neither
    list of the manifest keeps its content, whether the rollback runs or is
    refused; and no rollback changes the snapshot tree. *)
Theorem rollback_touches_tracked_paths_only iso fs p :
  (∀ m, _load_manifest fs = Some m →
        (p ∉ backed_up_files m) ∧ (p ∉ created_files m)) →
  files (rollback iso fs).1 !! p = files fs !! p
  ∧ backups (rollback iso fs).1 = backups fs.
Proof.
  intros H. unfold rollback.
  destruct (_load_manifest fs) as [m|] eqn:Hm; [|done].
  destruct (can_rollback m); cbn [negb fst]; [|done].
  destruct (H m eq_refl) as [Hb Hc]. split; [|done].
  cbn. by apply run_loops_untracked.
Qed.

Lemma rollback_touches_tracked_paths_only_witness :
  files (rollback "now" (write_text "notes.md" "mine" end_to_end)).1
    !! "notes.md" = Some "mine".
Proof.
  refine (eq_trans
            (proj1 (rollback_touches_tracked_paths_only "now"
                      (write_text "notes.md" "mine" end_to_end) "notes.md" _))
            eq_refl).
  intros m [= <-]. split; apply (bool_decide_unpack _); vm_compute; exact I.
Defined.

(** X4.  A path that is both snapshotted and tracked as created is restored
    by the first loop and deleted by the second: it is listed in
    [files_restored] and in [files_deleted], and it is absent afterwards. *)
Theorem created_path_is_deleted_even_if_snapshotted iso fs m r p :
  _load_manifest fs = Some m → (rollback iso fs).2 = Summary r →
  p ∈ backed_up_files m → p ∈ created_files m → p ∉ refused fs →
  is_Some (backups fs !! (backup_id m, p)) →
  p ∈ files_restored r ∧ p ∈ files_deleted r
  ∧ files (rollback iso fs).1 !! p = None.
Proof.
  intros Hm Hr Hb Hc Href Hs.
  destruct (rollback_summary iso fs m r Hm Hr)
    as (_ & -> & -> & _ & -> & _).
  destruct (run_loops_both fs m p Hb Hc Href Hs) as [H1 H2].
  split; [done|]. split; [done|]. by apply run_loops_created.
Qed.

Lemma created_path_is_deleted_even_if_snapshotted_witness :
  files created_then_modified !! "b.txt" = Some "changed"
  ∧ files (rollback "now" created_then_modified).1 !! "b.txt" = None.
Proof.
  split; [reflexivity|].
  eapply (created_path_is_deleted_even_if_snapshotted "now"
            created_then_modified _ _ "b.txt");
    try reflexivity;
    try (apply (bool_decide_unpack _); vm_compute; exact I).
Defined.

(** ** Sessions *)

(** What holds of [p] from its first snapshot on, as long as no call tracks
    [p] again and none rolls back. *)
Lemma step_keeps_snapshot bid p c fs call :
  (∃ m, _load_manifest fs = Some m ∧ backup_id m = bid
        ∧ can_rollback m = true ∧ p ∈ backed_up_files m
        ∧ p ∉ created_files m) →
  backups fs !! (bid, p) = Some c →
  keeps_tracking_of p call →
  (∃ m, _load_manifest (step fs call) = Some m ∧ backup_id m = bid
        ∧ can_rollback m = true ∧ p ∈ backed_up_files m
        ∧ p ∉ created_files m)
  ∧ backups (step fs call) !! (bid, p) = Some c
  ∧ refused (step fs call) = refused fs.
Proof.
  intros (m & Hm & Hid & Hcan & Hb & Hc) Hs Hk.
  destruct call as [q|q|iso|q content]; cbn [step keeps_tracking_of] in *.
  - unfold track_file_creation. rewrite Hm.
    split; [|done]. case_decide.
    + by exists m.
    + eexists. split; [reflexivity|]. cbn. repeat split; try done.
      set_solver.
  - unfold backup_file_before_change. rewrite Hm.
    destruct (files fs !! q) as [content|];
      [|by split; [exists m|]].
    destruct (decide (q ∈ refused fs)); [by split; [exists m|]|].
    cbn [fst]. split; [|split; [|done]].
    + case_decide.
      * by exists m.
      * eexists. split; [reflexivity|]. cbn. repeat split; try done.
        set_solver.
    + cbn. rewrite lookup_insert_ne; [done|]. congruence.
  - done.
  - split; [|done]. by exists m.
Qed.

Lemma run_keeps_snapshot bid p c calls fs :
  (∃ m, _load_manifest fs = Some m ∧ backup_id m = bid
        ∧ can_rollback m = true ∧ p ∈ backed_up_files m
        ∧ p ∉ created_files m) →
  backups fs !! (bid, p) = Some c →
  Forall (keeps_tracking_of p) calls →
  (∃ m, _load_manifest (run calls fs) = Some m ∧ backup_id m = bid
        ∧ can_rollback m = true ∧ p ∈ backed_up_files m
        ∧ p ∉ created_files m)
  ∧ backups (run calls fs) !! (bid, p) = Some c
  ∧ refused (run calls fs) = refused fs.
Proof.
  intros Hm Hs Hall. revert fs Hm Hs.
  induction Hall as [|call calls Hk _ IH]; intros fs Hm Hs; [done|].
  cbn [run foldl].
  destruct (step_keeps_snapshot bid p c fs call Hm Hs Hk) as (Hm' & Hs' & Hr).
  destruct (IH _ Hm' Hs') as (? & ? & Hr'). fold (run calls (step fs call)).
  repeat split; try done. by rewrite <- Hr.
Qed.

(** X5.  A file tracked once, before it is changed, is rolled back to the
    content it had at that call: after [backup_file_before_change p] on a
    file holding [c], whatever writes and whatever tracking of other paths
    follow, rollback leaves [c] in [p]. *)
Theorem tracked_once_restores_original iso fs m p c calls :
  _load_manifest fs = Some m → can_rollback m = true →
  files fs !! p = Some c → p ∉ refused fs → p ∉ created_files m →
  Forall (keeps_tracking_of p) calls →
  files (rollback iso (run calls (backup_file_before_change p fs).1)).1 !! p
  = Some c.
Proof.
  intros Hm Hcan Hf Href Hc Hall.
  destruct (backup_returns fs m p c Hm Hf Href)
    as (m1 & E & Hid & Hcan1 & Hc1 & Hin).
  rewrite E. cbn [fst]. set (fs1 := _save_manifest m1 _).
  destruct (run_keeps_snapshot (backup_id m) p c calls fs1)
    as ((m2 & Hm2 & Hid2 & Hcan2 & Hb2 & Hc2) & Hs2 & Hr2); try done.
  - exists m1. repeat split; try done; by rewrite ?Hcan1, ?Hc1.
  - cbn. apply lookup_insert_eq.
  - rewrite (rollback_fresh _ _ _ Hm2 Hcan2). cbn.
    apply run_loops_snapshot; try done.
    + by rewrite Hr2.
    + by rewrite Hid2.
Qed.

Lemma tracked_once_restores_original_witness :
  files (write_text "a.txt" "third"
           (write_text "a.txt" "second"
              (backup_file_before_change "a.txt" session_opened).1))
    !! "a.txt" = Some "third"
  ∧ files (rollback "now"
             (run [CallWriteText "a.txt" "second";
                   CallTrackCreation "b.txt";
                   CallWriteText "a.txt" "third"]
                (backup_file_before_change "a.txt" session_opened).1)).1
      !! "a.txt" = Some "orig".
Proof.
  split; [reflexivity|].
  eapply (tracked_once_restores_original "now" session_opened);
    try reflexivity;
    try (apply (bool_decide_unpack _); vm_compute; exact I).
  repeat constructor; discriminate.
Defined.

(** X6.  Without a manifest nothing is ever tracked: when no manifest loads
    (none was created, or the document does not parse), no sequence of
    tracking calls, writes and rollbacks writes a manifest or a snapshot;
    [get_backup_info] stays [None] and every rollback answers ["No backup
    found for this session"] and changes nothing. *)
Theorem nothing_is_tracked_without_a_manifest calls fs :
  _load_manifest fs = None →
  manifest_json (run calls fs) = manifest_json fs
  ∧ backups (run calls fs) = backups fs
  ∧ get_backup_info (run calls fs) = None
  ∧ ∀ iso, rollback iso (run calls fs)
           = (run calls fs, Failure "No backup found for this session").
Proof.
  intros Hm.
  assert (manifest_json (run calls fs) = manifest_json fs
          ∧ backups (run calls fs) = backups fs) as [H1 H2].
  { revert fs Hm. induction calls as [|call calls IH]; intros fs Hm; [done|].
    cbn [run foldl]. fold (run calls (step fs call)).
    assert (manifest_json (step fs call) = manifest_json fs
            ∧ backups (step fs call) = backups fs) as [E1 E2].
    { destruct call; cbn [step]; unfold track_file_creation,
        backup_file_before_change, rollback; rewrite ?Hm; done. }
    destruct (IH (step fs call)) as [? ?].
    - unfold _load_manifest in *. by rewrite E1.
    - split; congruence. }
  assert (_load_manifest (run calls fs) = None) as Hm'
    by (unfold _load_manifest in *; by rewrite H1).
  repeat split; try done.
  - unfold get_backup_info. by rewrite Hm'.
  - intros iso. unfold rollback. by rewrite Hm'.
Qed.

Lemma nothing_is_tracked_without_a_manifest_witness :
  _load_manifest one_file_project = None
  ∧ backups (run [CallTrackModification "a.txt"; CallTrackCreation "b.txt"]
               one_file_project) = ∅.
Proof.
  split; [reflexivity|].
  exact (proj1 (proj2 (nothing_is_tracked_without_a_manifest
                         [CallTrackModification "a.txt";
                          CallTrackCreation "b.txt"]
                         one_file_project eq_refl))).
Defined.

(** The manifest of a session as the tracking calls keep it: no path is
    listed twice, and every path of [backed_up_files] has its snapshot. *)
Lemma step_keeps_well_formed bid fs call :
  (∃ m, _load_manifest fs = Some m ∧ backup_id m = bid
        ∧ NoDup (backed_up_files m) ∧ NoDup (created_files m)
        ∧ ∀ p, p ∈ backed_up_files m → is_Some (backups fs !! (bid, p))) →
  ∃ m, _load_manifest (step fs call) = Some m ∧ backup_id m = bid
       ∧ NoDup (backed_up_files m) ∧ NoDup (created_files m)
       ∧ ∀ p, p ∈ backed_up_files m →
              is_Some (backups (step fs call) !! (bid, p)).
Proof.
  intros (m & Hm & Hid & Hnb & Hnc & Hs).
  destruct call as [q|q|iso|q content]; cbn [step].
  - unfold track_file_creation. rewrite Hm. case_decide.
    + by exists m.
    + eexists. split; [reflexivity|]. cbn. repeat split; try done.
      apply NoDup_app. split; [done|]. split; [set_solver|].
      apply NoDup_singleton.
  - unfold backup_file_before_change. rewrite Hm.
    destruct (files fs !! q) as [content|]; [|by exists m].
    destruct (decide (q ∈ refused fs)); [by exists m|].
    cbn [fst]. rewrite <- Hid in *.
    assert (∀ p, is_Some (backups fs !! (backup_id m, p)) ∨ p = q →
                 is_Some (<[(backup_id m, q) := content]> (backups fs)
                          !! (backup_id m, p))) as Hins.
    { intros p [Hp| ->]; [|by rewrite lookup_insert_eq].
      destruct (decide (p = q)) as [->|]; [by rewrite lookup_insert_eq|].
      rewrite lookup_insert_ne; [done|congruence]. }
    case_decide.
    + exists m. repeat split; try done. intros p Hp. apply Hins. auto.
    + eexists. split; [reflexivity|]. cbn. repeat split; try done.
      * apply NoDup_app. split; [done|]. split; [set_solver|].
        apply NoDup_singleton.
      * intros p [Hp|Hp%list_elem_of_singleton]%elem_of_app;
          apply Hins; auto.
  - unfold rollback. rewrite Hm.
    destruct (can_rollback m); cbn [negb fst]; [|by exists m].
    eexists. split; [reflexivity|]. cbn. done.
  - by exists m.
Qed.

Lemma messages_differ p q :
  backup_not_found p ≠ error_restoring q
  ∧ backup_not_found p ≠ error_deleting q.
Proof. split; discriminate. Qed.

(** X7.  The manifest of a session stays well formed.  From [create_backup]
    on, whatever tracking calls, writes and rollbacks follow: a manifest
    loads, with the backup id and session it was created with; neither list
    holds a path twice; every path of [backed_up_files] has a snapshot
    under that backup id; and so no rollback reports ["Backup not found"]. *)
Theorem session_manifest_stays_well_formed session stamp iso descr fs calls :
  ∃ m, _load_manifest (run calls (create_backup session stamp iso descr fs).1)
       = Some m
     ∧ backup_id m = stamp
     ∧ NoDup (backed_up_files m) ∧ NoDup (created_files m)
     ∧ (∀ p, p ∈ backed_up_files m →
             is_Some (backups
                        (run calls (create_backup session stamp iso descr fs).1)
                      !! (stamp, p)))
     ∧ ∀ iso' r p,
         (rollback iso'
            (run calls (create_backup session stamp iso descr fs).1)).2
         = Summary r →
         backup_not_found p ∉ errors r.
Proof.
  set (fs1 := (create_backup session stamp iso descr fs).1).
  assert (∃ m, _load_manifest (run calls fs1) = Some m ∧ backup_id m = stamp
               ∧ NoDup (backed_up_files m) ∧ NoDup (created_files m)
               ∧ ∀ p, p ∈ backed_up_files m →
                      is_Some (backups (run calls fs1) !! (stamp, p)))
    as (m & Hm & Hid & Hnb & Hnc & Hs).
  { assert (∃ m, _load_manifest fs1 = Some m ∧ backup_id m = stamp
                 ∧ NoDup (backed_up_files m) ∧ NoDup (created_files m)
                 ∧ ∀ p, p ∈ backed_up_files m →
                        is_Some (backups fs1 !! (stamp, p))) as H0.
    { eexists. split; [reflexivity|]. cbn. repeat split; try constructor.
      intros p Hp. by apply elem_of_nil in Hp. }
    clearbody fs1. revert fs1 H0.
    induction calls as [|call calls IH]; intros fs1 H0; [done|].
    cbn [run foldl]. apply IH. by apply step_keeps_well_formed. }
  exists m. repeat split; try done.
  intros iso' r p Hr Hin.
  destruct (rollback_summary iso' _ m r Hm Hr) as (_ & _ & _ & He & _).
  rewrite He in Hin. apply run_loops_errs in Hin.
  destruct (messages_differ p p) as [_ _].
  destruct Hin as [(q & Hq & Hnone & Heq)|[(q & _ & _ & _ & Heq)
                                          |(q & _ & _ & _ & Heq)]].
  - destruct (Hs q Hq) as [c Hc]. rewrite Hid in Hnone. congruence.
  - by destruct (messages_differ p q) as [? _].
  - by destruct (messages_differ p q) as [_ ?].
Qed.

(** X8.  [track_file_creation] is idempotent: a second call with the same
    path changes nothing.  With a manifest loaded, one call puts the path
    in [created_files], keeps every other path of the list and keeps
    [backed_up_files] and [can_rollback]; it never touches a project file
    or a snapshot. *)
Theorem track_file_creation_is_idempotent p fs :
  track_file_creation p (track_file_creation p fs) = track_file_creation p fs
  ∧ files (track_file_creation p fs) = files fs
  ∧ backups (track_file_creation p fs) = backups fs
  ∧ ∀ m, _load_manifest fs = Some m →
      ∃ m', _load_manifest (track_file_creation p fs) = Some m'
            ∧ p ∈ created_files m'
            ∧ (∀ q, q ∈ created_files m → q ∈ created_files m')
            ∧ (∀ q, q ∈ created_files m' → q = p ∨ q ∈ created_files m)
            ∧ backed_up_files m' = backed_up_files m
            ∧ can_rollback m' = can_rollback m.
Proof.
  unfold track_file_creation.
  destruct (_load_manifest fs) as [m|] eqn:Hm.
  - split; [|split; [done|split; [done|]]].
    + destruct (decide (p ∈ created_files m)) as [Hin|Hin]; cbn.
      * by rewrite decide_True.
      * rewrite decide_True; [done|]. cbn. set_solver.
    + intros ? [= <-].
      destruct (decide (p ∈ created_files m)) as [Hin|Hin].
      * exists m. repeat split; auto.
      * eexists. split; [reflexivity|]. cbn. repeat split; try done;
          set_solver.
  - rewrite Hm. repeat split; done.
Qed.

Lemma track_file_creation_is_idempotent_witness :
  ∃ m', _load_manifest (track_file_creation "b.txt" session_opened) = Some m'
        ∧ "b.txt" ∈ created_files m'.
Proof.
  destruct (proj2 (proj2 (proj2
              (track_file_creation_is_idempotent "b.txt" session_opened)))
              _ eq_refl) as (m' & H1 & H2 & _).
  exists m'. split; assumption.
Defined.

(** X9.  [create_backup] starts over.  Whatever manifest the session had,
    rolled back or not, the new one has [can_rollback] true and both lists
    empty: what was tracked before is forgotten.  A rollback right after it
    succeeds, restores and deletes nothing, and leaves every project file
    and every earlier snapshot in place. *)
Theorem create_backup_starts_over session stamp iso descr iso' fs :
  get_backup_info (create_backup session stamp iso descr fs).1
  = Some {| info_backup_id := stamp; info_created_at := iso;
            info_description := descr; backed_up_files_count := 0;
            created_files_count := 0; info_can_rollback := true;
            info_total_changes := 0 |}
  ∧ backups (create_backup session stamp iso descr fs).1 = backups fs
  ∧ files (rollback iso' (create_backup session stamp iso descr fs).1).1
    = files fs
  ∧ ∃ r, (rollback iso' (create_backup session stamp iso descr fs).1).2
         = Summary r
         ∧ success r = true ∧ files_restored r = []
         ∧ files_deleted r = [] ∧ errors r = [].
Proof.
  repeat split; try done. eexists. by repeat split.
Qed.

End RollbackFacts.

(* ===================================================================== *)
(** * Facts about the reuse manager *)
(* ===================================================================== *)

Module ReuseFacts.
Import Reuse.

(** ** The similarity score *)















(** ** The search *)

(** The loop appends to its accumulator, entry by entry. *)
Lemma consider_candidate m q t acc ref :
  consider m q t acc ref = (acc ++ option_list (candidate m q t ref))%list.
Proof.
  unfold consider, candidate.
  destruct (_load_configuration _ m); [|by rewrite app_nil_r].
  destruct (Qle_bool _ _); [done|by rewrite app_nil_r].
Qed.

Lemma loop_candidates m q t acc l :
  foldl (consider m q t) acc l = (acc ++ omap (candidate m q t) l)%list.
Proof.
  revert acc. induction l as [|ref l IH]; intros acc; cbn [foldl].
  - by rewrite app_nil_r.
  - rewrite IH, consider_candidate. cbn [omap list_omap].
    destruct (candidate m q t ref); cbn; [|by rewrite app_nil_r].
    by rewrite <- app_assoc.
Qed.

Lemma candidate_spec m q t ref r :
  candidate m q t ref = Some r →
  config_ref r = ref
  ∧ _load_configuration (ref_config_id ref) m = Some (full_config r)
  ∧ (t <= _calculate_similarity q (full_config r))%Q
  ∧ similarity r = round2 (_calculate_similarity q (full_config r)).
Proof.
  unfold candidate. destruct (_load_configuration _ m) as [c|]; [|done].
  destruct (Qle_bool _ _) eqn:Hle; [|done].
  intros [= <-]. apply Qle_bool_iff in Hle. done.
Qed.

(** ** The sort *)

Lemma place_elem x l r : r ∈ place x l ↔ r = x ∨ r ∈ l.
Proof.
  induction l as [|y l IH]; cbn [place]; [set_solver|].
  destruct (Qle_bool _ _); [set_solver|].
  rewrite !elem_of_cons, IH. tauto.
Qed.

Lemma place_sorted x l :
  StronglySorted before l → StronglySorted before (place x l).
Proof.
  induction 1 as [|y l Hs IH Hy]; cbn [place].
  - by repeat constructor.
  - destruct (Qle_bool (similarity y) (similarity x)) eqn:Hle.
    + apply Qle_bool_iff in Hle.
      constructor; [by constructor|].
      constructor; [exact Hle|].
      eapply Forall_impl; [exact Hy|]. unfold before. intros z Hz. cbn in Hz.
      by apply Qle_trans with (similarity y).
    + assert (similarity x <= similarity y)%Q as Hxy.
      { apply Qnot_lt_le. intros Hlt. apply Qlt_le_weak in Hlt.
        apply Qle_bool_iff in Hlt. congruence. }
      constructor; [exact IH|].
      apply Forall_forall. intros z [->|Hz]%place_elem; [exact Hxy|].
      rewrite Forall_forall in Hy. by apply Hy.
Qed.

Lemma sort_sorted l : StronglySorted before (sort_by_similarity_desc l).
Proof.
  induction l as [|x l IH]; cbn; [constructor|by apply place_sorted].
Qed.

Lemma sort_elem l r : r ∈ sort_by_similarity_desc l ↔ r ∈ l.
Proof.
  induction l as [|x l IH]; cbn; [done|].
  rewrite place_elem, elem_of_cons, IH. done.
Qed.

(** Stability: placing [x] moves it past larger keys only, so among the
    elements of any one key the order is untouched. *)
Lemma place_with_key s x l :
  with_key s (place x l) = with_key s (x :: l).
Proof.
  induction l as [|y l IH]; cbn [place]; [done|].
  destruct (Qle_bool (similarity y) (similarity x)) eqn:Hle; [done|].
  unfold with_key in *. cbn [List.filter] in *. rewrite IH.
  destruct (Qeq_bool (similarity x) s) eqn:Hx; [|done].
  destruct (Qeq_bool (similarity y) s) eqn:Hy; [|done].
  apply Qeq_bool_iff in Hx, Hy.
  assert (Qle_bool (similarity y) (similarity x) = true); [|congruence].
  apply Qle_bool_iff. rewrite Hx, Hy. apply Qle_refl.
Qed.

Lemma sort_with_key s l :
  with_key s (sort_by_similarity_desc l) = with_key s l.
Proof.
  induction l as [|x l IH]; [done|].
  cbn [sort_by_similarity_desc foldr]. rewrite place_with_key.
  unfold with_key in *. cbn [List.filter].
  fold (sort_by_similarity_desc l). by rewrite IH.
Qed.

Lemma with_key_sublist s l : with_key s l `sublist_of` l.
Proof.
  induction l as [|x l IH]; [done|]. unfold with_key in *. cbn [List.filter].
  destruct (Qeq_bool _ _); [by apply sublist_skip|by apply sublist_cons].
Qed.

(** ** Rounding to two decimals *)

Lemma round_half_even_close x :
  (x - (1 # 2) <= inject_Z (round_half_even x) <= x + (1 # 2))%Q.
Proof.
  unfold round_half_even.
  pose proof (Qfloor_le x) as Hlo. pose proof (Qlt_floor x) as Hhi.
  rewrite inject_Z_plus in Hhi. change (inject_Z 1) with 1%Q in Hhi.
  destruct (x - inject_Z (Qfloor x) ?= 1 # 2)%Q eqn:Hc.
  - apply Qeq_alt in Hc.
    destruct (Z.even _); rewrite ?inject_Z_plus;
      change (inject_Z 1) with 1%Q; lra.
  - apply Qlt_alt in Hc. lra.
  - apply Qgt_alt in Hc. rewrite inject_Z_plus.
    change (inject_Z 1) with 1%Q. lra.
Qed.

(** ** Loading, saving, reusing *)

(** C7, as the code has it.  A configuration document that does not parse
    reads exactly as a missing one: [_load_configuration] returns [None] in
    both cases and [reuse_configuration] does nothing.  An index document
    that does not parse reads as the empty index, like a missing one. *)
Theorem unparseable_reads_as_missing id m docs :
  config_json m !! id = Some Unparseable ∨ config_json m !! id = None →
  _load_configuration id m = None
  ∧ reuse_configuration id m = (m, None)
  ∧ index (init (Some Unparseable) docs) = []
  ∧ index (init None docs) = [].
Proof.
  intros H.
  assert (_load_configuration id m = None) as Hl
    by (unfold _load_configuration; by destruct H as [-> | ->]).
  unfold reuse_configuration. by rewrite Hl.
Qed.

Lemma unparseable_reads_as_missing_witness :
  config_json corrupt_store !! "20250101_120000" = Some Unparseable
  ∧ _load_configuration "20250101_120000" corrupt_store = None
  ∧ index (init (Some Unparseable) ∅) = [].
Proof.
  split; [reflexivity|].
  destruct (unparseable_reads_as_missing "20250101_120000" corrupt_store ∅
              (or_introl eq_refl)) as (H1 & _ & H3 & _).
  split; assumption.
Defined.

(** C7, as stated, fails: the document of this configuration exists and
    does not parse, yet loading it gives [None], the result for an unknown
    identifier; and the unparseable index is read as the empty list.  So
    it is not true that loading an unparseable document never gives the
    result of a missing one. *)
Lemma corrupt_record_is_not_reported :
  config_json corrupt_store !! "20250101_120000" = Some Unparseable
  ∧ config_json corrupt_store !! "20991231_235959" = None
  ∧ _load_configuration "20250101_120000" corrupt_store
    = _load_configuration "20991231_235959" corrupt_store
  ∧ _load_configuration "20250101_120000" corrupt_store = None
  ∧ index_json corrupt_store = Some Unparseable
  ∧ index corrupt_store = []
  ∧ ¬ (∀ m id, config_json m !! id = Some Unparseable →
               _load_configuration id m ≠ None).
Proof.
  repeat split; try (vm_compute; reflexivity).
  intros H. by apply (H corrupt_store "20250101_120000").
Qed.

(** C8.  Round trip: a payload with the required [project_type] key is
    saved under the identifier returned, and loading that identifier gives
    the payload back with the three added keys, [reuse_count] being 0. *)
Theorem load_after_save stamp iso config m ptype :
  project_type config = Some ptype →
  (save_configuration stamp iso config m).2 = Returned stamp
  ∧ _load_configuration stamp (save_configuration stamp iso config m).1
    = Some {| payload := config; config_id := stamp; created_at := iso;
              reuse_count := 0 |}.
Proof.
  intros Hp. unfold save_configuration. rewrite Hp. cbn [fst snd].
  split; [done|].
  unfold _load_configuration. cbn. by rewrite lookup_insert_eq.
Qed.

Lemma load_after_save_witness :
  project_type record_A = Some "programming"
  ∧ _load_configuration "20250101_120000" store_A = Some stored_A.
Proof.
  split; [reflexivity|].
  exact (proj2 (load_after_save "20250101_120000" "2025-01-01T12:00:00"
                  record_A (init None ∅) "programming" eq_refl)).
Defined.

(** One call on a known identifier: the record and every index entry of
    that identifier go up by one, and both documents are rewritten. *)
Lemma reuse_step id m c :
  _load_configuration id m = Some c →
  reuse_configuration id m
  = (_save_index (bump_ref id <$> index m) (_save_configuration id (bump c) m),
     Some (bump c)).
Proof. intros H. unfold reuse_configuration. by rewrite H. Qed.

Lemma bump_ref_id id e : ref_config_id (bump_ref id e) = ref_config_id e.
Proof. unfold bump_ref. by case_decide. Qed.

Lemma bump_ref_count id e :
  ref_config_id e = id →
  ref_reuse_count (bump_ref id e) = (ref_reuse_count e + 1)%Z.
Proof. intros H. unfold bump_ref. by rewrite decide_True. Qed.

(** C9.  On an unknown identifier [reuse_configuration] returns [None] and
    changes nothing.  On a known one, whose index entries carry the count of
    the full record, [n] calls leave a record that differs from the first
    only by a count [n] higher, and every index entry of that identifier
    carries that same count: the two counts are equal after every call.
    The index keeps its entries, and the index document on disk is the
    index in memory. *)
Theorem reuse_keeps_counts_equal id m :
  (_load_configuration id m = None → reuse_configuration id m = (m, None))
  ∧ (∀ c, _load_configuration id m = Some c →
       (∀ e, e ∈ index m → ref_config_id e = id →
             ref_reuse_count e = reuse_count c) →
       ∀ n, ∃ c',
         _load_configuration id (reuse_times n id m) = Some c'
         ∧ payload c' = payload c
         ∧ reuse_count c' = (reuse_count c + Z.of_nat n)%Z
         ∧ (∀ e, e ∈ index (reuse_times n id m) → ref_config_id e = id →
                 ref_reuse_count e = reuse_count c')
         ∧ ref_config_id <$> index (reuse_times n id m)
           = ref_config_id <$> index m
         ∧ ((0 < n)%nat →
            index_json (reuse_times n id m)
            = Some (Parsed (index (reuse_times n id m))))).
Proof.
  split.
  { intros H. unfold reuse_configuration. by rewrite H. }
  intros c Hc Hidx n. induction n as [|n IH].
  - exists c. cbn. repeat split; try done; [lia|lia].
  - destruct IH as (c' & Hl & Hp & Hn & He & Hids & _).
    exists (bump c').
    change (reuse_times (S n) id m)
      with (reuse_configuration id (reuse_times n id m)).1.
    rewrite (reuse_step _ _ _ Hl). cbn [fst].
    split; [|split; [|split; [|split; [|split]]]].
    + unfold _load_configuration. cbn. by rewrite lookup_insert_eq.
    + done.
    + cbn. lia.
    + cbn [index _save_index]. intros e (e0 & -> & Hin)%list_elem_of_fmap Hid.
      rewrite bump_ref_id in Hid. rewrite bump_ref_count by done.
      cbn. rewrite (He e0 Hin Hid). done.
    + cbn [index _save_index _save_configuration]. rewrite <- Hids.
      rewrite <- list_fmap_compose. apply list_fmap_ext.
      intros ? e _. cbn. apply bump_ref_id.
    + done.
Qed.

Lemma reuse_keeps_counts_equal_witness :
  _load_configuration "20250101_120000" store_A = Some stored_A
  ∧ (∀ e, e ∈ index store_A → ref_config_id e = "20250101_120000" →
          ref_reuse_count e = reuse_count stored_A)
  ∧ ∃ c', _load_configuration "20250101_120000"
            (reuse_times 3 "20250101_120000" store_A) = Some c'
          ∧ reuse_count c' = 3%Z
          ∧ ∀ e, e ∈ index (reuse_times 3 "20250101_120000" store_A) →
                 ref_config_id e = "20250101_120000" →
                 ref_reuse_count e = 3%Z.
Proof.
  assert (∀ e, e ∈ index store_A → ref_config_id e = "20250101_120000" →
               ref_reuse_count e = reuse_count stored_A) as Hidx.
  { intros e He _. change (index store_A) with [entry_A] in He.
    apply list_elem_of_singleton in He. rewrite He. reflexivity. }
  split; [reflexivity|]. split; [exact Hidx|].
  destruct (proj2 (reuse_keeps_counts_equal "20250101_120000" store_A)
              stored_A eq_refl Hidx 3%nat) as (c' & Hl & _ & Hn & He & _).
  exists c'. split; [exact Hl|]. split; [exact Hn|].
  intros e Hin Hid. rewrite (He e Hin Hid). exact Hn.
Defined.

(** ** More properties of the search *)


Lemma place_length x l : length (place x l) = S (length l).
Proof.
  induction l as [|y l IH]; cbn [place]; [done|].
  destruct (Qle_bool _ _); cbn; [done|]. by rewrite IH.
Qed.

Lemma sort_length l : length (sort_by_similarity_desc l) = length l.
Proof.
  induction l as [|x l IH]; cbn; [done|].
  rewrite place_length. f_equal. exact IH.
Qed.

Lemma omap_length {A B} (f : A → option B) (l : list A) :
  (length (omap f l) ≤ length l)%nat.
Proof.
  induction l as [|x l IH]; cbn; [done|]. destruct (f x); cbn; lia.
Qed.

Lemma search_as_sorted_candidates q t m :
  find_similar_configurations q t m
  = sort_by_similarity_desc (omap (candidate m q t) (index m)).
Proof. unfold find_similar_configurations. by rewrite loop_candidates. Qed.

(** X11.  The score is symmetric: scoring record [c1], taken as the
    project, against record [c2] gives what scoring [c2] against [c1]
    gives. *)
Theorem score_is_symmetric c1 c2 :
  _calculate_similarity (as_project_info c1) c2
  = _calculate_similarity (as_project_info c2) c1.
Proof.
  unfold _calculate_similarity, as_project_info.
  cbn [info_project_type info_tech_stack].
  set (a := list_to_set (default [] (tech_stack (payload c1))) : gset string).
  set (b := list_to_set (default [] (tech_stack (payload c2))) : gset string).
  rewrite (andb_comm (truthy b)).
  clearbody a b.
  assert (b ∩ a = a ∩ b) as -> by set_solver.
  assert (b ∪ a = a ∪ b) as -> by set_solver.
  destruct (decide (project_type (payload c1) = project_type (payload c2)))
    as [E|E].
  - by rewrite (decide_True (P := project_type (payload c2)
                                  = project_type (payload c1))).
  - rewrite (decide_False (P := project_type (payload c2)
                                = project_type (payload c1))); [done|].
    congruence.
Qed.



(** ** The recommendation *)

(** Rounding does not cross an integer: it is monotone against integers. *)
Lemma round_half_even_ge n y :
  (inject_Z n <= y)%Q → (n ≤ round_half_even y)%Z.
Proof.
  intros H. apply Qfloor_resp_le in H. rewrite Qfloor_Z in H.
  unfold round_half_even.
  destruct (y - inject_Z (Qfloor y) ?= 1 # 2)%Q; [destruct (Z.even _)| |]; lia.
Qed.

Lemma round_half_even_le n y :
  (y <= inject_Z n)%Q → (round_half_even y ≤ n)%Z.
Proof.
  intros H. pose proof (Qfloor_resp_le _ _ H) as Hf. rewrite Qfloor_Z in Hf.
  unfold round_half_even.
  destruct (decide (Qfloor y = n)) as [E|E].
  - pose proof (Qfloor_le y) as Hlo. rewrite E in *.
    destruct (y - inject_Z n ?= 1 # 2)%Q eqn:Hc; [|lia|].
    + apply Qeq_alt in Hc. lra.
    + apply Qgt_alt in Hc. lra.
  - destruct (y - inject_Z (Qfloor y) ?= 1 # 2)%Q;
      [destruct (Z.even _)| |]; lia.
Qed.





(** ** Statistics *)

Lemma place_ref_elem x l e : e ∈ place_ref x l ↔ e = x ∨ e ∈ l.
Proof.
  induction l as [|y l IH]; cbn [place_ref]; [set_solver|].
  destruct (_ <=? _)%Z; [set_solver|].
  rewrite !elem_of_cons, IH. tauto.
Qed.

Lemma place_ref_length x l : length (place_ref x l) = S (length l).
Proof.
  induction l as [|y l IH]; cbn [place_ref]; [done|].
  destruct (_ <=? _)%Z; cbn; [done|]. by rewrite IH.
Qed.

Lemma place_ref_sorted x l :
  StronglySorted reused_more l → StronglySorted reused_more (place_ref x l).
Proof.
  induction 1 as [|y l Hs IH Hy]; cbn [place_ref].
  - by repeat constructor.
  - destruct (ref_reuse_count y <=? ref_reuse_count x)%Z eqn:Hle.
    + apply Z.leb_le in Hle.
      constructor; [by constructor|].
      constructor; [exact Hle|].
      eapply Forall_impl; [exact Hy|]. unfold reused_more. cbn. lia.
    + apply Z.leb_gt in Hle.
      constructor; [exact IH|].
      apply Forall_forall. intros z [->|Hz]%place_ref_elem.
      * unfold reused_more. lia.
      * rewrite Forall_forall in Hy. by apply Hy.
Qed.

Lemma sort_ref_sorted l : StronglySorted reused_more (sort_by_reuse_desc l).
Proof.
  induction l as [|x l IH]; cbn; [constructor|by apply place_ref_sorted].
Qed.

Lemma sort_ref_elem l e : e ∈ sort_by_reuse_desc l ↔ e ∈ l.
Proof.
  induction l as [|x l IH]; cbn; [done|].
  rewrite place_ref_elem, elem_of_cons, IH. done.
Qed.

Lemma sort_ref_length l : length (sort_by_reuse_desc l) = length l.
Proof.
  induction l as [|x l IH]; cbn; [done|].
  rewrite place_ref_length. f_equal. exact IH.
Qed.

(** In a sorted list, what [take] keeps dominates what it drops. *)
Lemma sorted_take_dominates n l e e' :
  StronglySorted reused_more l →
  e ∈ take n l → e' ∈ drop n l → reused_more e e'.
Proof.
  intros Hs. revert n. induction Hs as [|x l Hs IH Hx]; intros n.
  - rewrite take_nil. by intros ?%elem_of_nil.
  - destruct n as [|n]; cbn; [by intros ?%elem_of_nil|].
    intros [->|He]%elem_of_cons He'.
    + rewrite Forall_forall in Hx. apply Hx.
      by eapply sublist_subseteq; [apply sublist_drop|].
    + by apply (IH n).
Qed.

(** The counter of one project type after the counting loop. *)
Lemma count_type_one pt e t :
  count_type pt e !! t
  = if decide (ref_project_type e = t)
    then Some (S (default 0%nat (pt !! t))) else pt !! t.
Proof.
  unfold count_type.
  destruct (decide (ref_project_type e = t)) as [<-|Ht].
  - rewrite lookup_alter_eq.
    destruct (decide (pt !! ref_project_type e = None)) as [Hk|Hk].
    + by rewrite lookup_insert_eq, Hk.
    + by destruct (pt !! ref_project_type e).
  - rewrite lookup_alter_ne by done.
    destruct (decide (pt !! ref_project_type e = None)); [|done].
    by rewrite lookup_insert_ne.
Qed.

Lemma count_types_fold pt l t :
  foldl count_type pt l !! t
  = match pt !! t with
    | Some k => Some (k + length (entries_of_type t l))%nat
    | None =>
        if decide (entries_of_type t l = []) then None
        else Some (length (entries_of_type t l))
    end.
Proof.
  revert pt. induction l as [|e l IH]; intros pt; cbn [foldl].
  - cbn. destruct (pt !! t); [f_equal; lia|done].
  - rewrite IH, count_type_one. unfold entries_of_type.
    rewrite filter_cons.
    destruct (decide (ref_project_type e = t)) as [Ht|Ht].
    + rewrite decide_False by done. cbn [length].
      destruct (pt !! t); cbn; f_equal; lia.
    + done.
Qed.

(** X14.  The statistics summarise the index.  [total_configurations] is
    its length; each project type is counted with the number of entries of
    that type, and types with no entry are absent; [most_reused] holds at
    most three entries of the index, sorted by reuse count, the largest
    first, and every entry it leaves out has a count no larger than every
    entry it lists.  On an empty index the average is 0. *)
Theorem statistics_summarise_the_index m :
  total_configurations (get_statistics m) = length (index m)
  ∧ (∀ t, project_types (get_statistics m) !! t
          = if decide (entries_of_type t (index m) = []) then None
            else Some (length (entries_of_type t (index m))))
  ∧ length (most_reused (get_statistics m)) = min 3 (length (index m))
  ∧ StronglySorted reused_more (most_reused (get_statistics m))
  ∧ (∀ e, e ∈ most_reused (get_statistics m) → e ∈ index m)
  ∧ (∀ e, e ∈ index m →
          e ∈ most_reused (get_statistics m)
          ∨ ∀ e', e' ∈ most_reused (get_statistics m) → reused_more e' e)
  ∧ (index m = [] → average_reuses (get_statistics m) = 0%Q).
Proof.
  unfold get_statistics. cbn.
  pose proof (sort_ref_sorted (index m)) as Hs.
  split; [done|]. split; [|split; [|split; [|split; [|split]]]].
  - intros t. rewrite count_types_fold. by rewrite lookup_empty.
  - by rewrite length_take, sort_ref_length.
  - clear -Hs. revert Hs. generalize (sort_by_reuse_desc (index m)) 3%nat.
    intros l n Hs. revert n. induction Hs as [|x l Hs IH Hx]; intros n.
    + rewrite take_nil. constructor.
    + destruct n; cbn; constructor; [apply IH|].
      rewrite Forall_forall in Hx. apply Forall_forall.
      intros y Hy. apply Hx. by eapply sublist_subseteq;
        [apply sublist_take|].
  - intros e He. apply sort_ref_elem.
    by eapply sublist_subseteq; [apply sublist_take|].
  - intros e He. apply sort_ref_elem in He.
    rewrite <- (take_drop 3 (sort_by_reuse_desc (index m))) in He.
    apply elem_of_app in He as [He|He]; [by left|].
    right. intros e' He'. by eapply sorted_take_dominates.
  - intros ->. done.
Qed.

Lemma statistics_summarise_the_index_witness :
  index (init None ∅) = []
  ∧ average_reuses (get_statistics (init None ∅)) = 0%Q.
Proof.
  split; [reflexivity|].
  exact (proj2 (proj2 (proj2 (proj2 (proj2 (proj2
           (statistics_summarise_the_index (init None ∅)))))))
           eq_refl).
Defined.

(** ** Saving, reusing and reopening *)

Lemma save_step stamp iso config m ptype :
  project_type config = Some ptype →
  (save_configuration stamp iso config m).1
  = _save_index (index m ++ [new_entry stamp iso ptype config])
      (_save_configuration stamp (new_record stamp iso config) m).
Proof. intros H. unfold save_configuration. by rewrite H. Qed.

Lemma save_step_raised stamp iso config m :
  project_type config = None →
  save_configuration stamp iso config m
  = (_save_configuration stamp (new_record stamp iso config) m,
     Raised "KeyError: 'project_type'").
Proof. intros H. unfold save_configuration. by rewrite H. Qed.

(** Reading a record after one was written. *)
Lemma load_after_write id' id c m :
  _load_configuration id' (_save_configuration id c m)
  = if decide (id' = id) then Some c else _load_configuration id' m.
Proof.
  unfold _load_configuration, _save_configuration. cbn [config_json].
  destruct (decide (id' = id)) as [->|Hne].
  - by rewrite lookup_insert_eq.
  - by rewrite lookup_insert_ne.
Qed.

Lemma load_after_index l id m :
  _load_configuration id (_save_index l m) = _load_configuration id m.
Proof. done. Qed.

(** The search reads the store through the records of the index entries. *)
Lemma candidate_ext m m' q t ref :
  _load_configuration (ref_config_id ref) m'
  = _load_configuration (ref_config_id ref) m →
  candidate m' q t ref = candidate m q t ref.
Proof. unfold candidate. by intros ->. Qed.

Lemma candidates_ext m m' q t (l : list IndexEntry) :
  (∀ ref, ref ∈ l →
          _load_configuration (ref_config_id ref) m'
          = _load_configuration (ref_config_id ref) m) →
  omap (candidate m' q t) l = omap (candidate m q t) l.
Proof.
  induction l as [|ref l IH]; intros H; [done|]. cbn [omap list_omap].
  rewrite (candidate_ext m m') by (apply H; left).
  rewrite IH; [done|]. intros r Hr. apply H. by right.
Qed.

Lemma search_elem q t m r :
  r ∈ find_similar_configurations q t m
  ↔ ∃ ref, ref ∈ index m ∧ candidate m q t ref = Some r.
Proof.
  by rewrite search_as_sorted_candidates, sort_elem, list_elem_of_omap.
Qed.

Lemma sum_counts_bump id l :
  foldr Z.add 0%Z (ref_reuse_count <$> (bump_ref id <$> l))
  = (foldr Z.add 0%Z (ref_reuse_count <$> l)
     + Z.of_nat (length (entries_of id l)))%Z.
Proof.
  induction l as [|e l IH]; [done|].
  rewrite !fmap_cons. cbn [foldr]. rewrite IH.
  unfold entries_of. rewrite filter_cons.
  destruct (decide (ref_config_id e = id)) as [He|He].
  - rewrite bump_ref_count by done. cbn [length]. lia.
  - unfold bump_ref. rewrite decide_False by done. lia.
Qed.

Lemma bump_ref_type id e :
  ref_project_type (bump_ref id e) = ref_project_type e.
Proof. unfold bump_ref. by destruct (decide _). Qed.

Lemma count_types_bump id pt l :
  foldl count_type pt (bump_ref id <$> l) = foldl count_type pt l.
Proof.
  revert pt. induction l as [|e l IH]; intros pt; [done|].
  rewrite fmap_cons. cbn [foldl]. rewrite IH. f_equal.
  unfold count_type. by rewrite bump_ref_type.
Qed.

(** X15.  The statistics follow the calls.  A save that returns adds one
    configuration, leaves the total of the reuse counts, and adds one to the
    counter of the saved project type (a new type starts at 1).  A reuse of
    an identifier whose record loads leaves the number of configurations and
    the counters per type, and adds to the total one for every index entry
    that carries the identifier. *)
Theorem statistics_follow_save_and_reuse m :
  (∀ stamp iso config ptype,
     project_type config = Some ptype →
     let after := get_statistics (save_configuration stamp iso config m).1 in
     total_configurations after = S (total_configurations (get_statistics m))
     ∧ total_reuses after = total_reuses (get_statistics m)
     ∧ ∀ t, project_types after !! t
            = if decide (t = ptype)
              then Some (S (default 0%nat
                              (project_types (get_statistics m) !! t)))
              else project_types (get_statistics m) !! t)
  ∧ (∀ id c,
       _load_configuration id m = Some c →
       let after := get_statistics (reuse_configuration id m).1 in
       total_configurations after = total_configurations (get_statistics m)
       ∧ total_reuses after
         = (total_reuses (get_statistics m)
            + Z.of_nat (length (entries_of id (index m))))%Z
       ∧ project_types after = project_types (get_statistics m)).
Proof.
  split.
  - intros stamp iso config ptype Hp after. subst after.
    rewrite (save_step _ _ _ _ _ Hp).
    unfold get_statistics.
    cbn [total_configurations total_reuses project_types index _save_index
         _save_configuration].
    split; [|split].
    + rewrite length_app. cbn. lia.
    + rewrite fmap_app, foldr_app. done.
    + intros t. rewrite foldl_app. cbn [foldl]. rewrite count_type_one.
      cbn [ref_project_type new_entry].
      destruct (decide (ptype = t)) as [->|Hne].
      * by rewrite decide_True.
      * by rewrite decide_False.
  - intros id c Hc after. subst after.
    rewrite (reuse_step _ _ _ Hc). cbn [fst].
    unfold get_statistics.
    cbn [total_configurations total_reuses project_types index _save_index
         _save_configuration].
    split; [|split].
    + by rewrite length_fmap.
    + apply sum_counts_bump.
    + apply count_types_bump.
Qed.

Lemma statistics_follow_save_and_reuse_witness :
  project_type (plain_config "data" "etl" ["Python"]) = Some "data"
  ∧ _load_configuration "20250101_120000" store_A = Some stored_A
  ∧ total_configurations (get_statistics store_same_second) = 2%nat
  ∧ total_reuses
      (get_statistics (reuse_configuration "20250101_120000" store_A).1)
    = 1%Z.
Proof.
  split; [reflexivity|]. split; [reflexivity|].
  pose proof (statistics_follow_save_and_reuse store_A) as [Hsave Hreuse].
  split.
  - exact (proj1 (Hsave "20250101_120000" "2025-01-01T12:00:00.700000"
                    (plain_config "data" "etl" ["Python"]) "data" eq_refl)).
  - exact (proj1 (proj2 (Hreuse "20250101_120000" stored_A eq_refl))).
Defined.

(** X16.  A save that returns leaves every record stored under another
    identifier and every earlier index entry as they were, and appends one
    entry.  The identifier is the clock read to the second: when it is
    already in use the record under it is replaced while the earlier index
    entry stays, so that every search result under that identifier, the
    earlier entry included, carries the new record.  Results under other
    identifiers are still returned. *)
Theorem save_replaces_record_of_same_second stamp iso config m ptype :
  project_type config = Some ptype →
  let m' := (save_configuration stamp iso config m).1 in
  (∀ id, id ≠ stamp → _load_configuration id m' = _load_configuration id m)
  ∧ index m' = (index m ++ [new_entry stamp iso ptype config])%list
  ∧ (∀ q t r, r ∈ find_similar_configurations q t m' →
              ref_config_id (config_ref r) = stamp →
              full_config r = new_record stamp iso config)
  ∧ (∀ q t r, r ∈ find_similar_configurations q t m →
              ref_config_id (config_ref r) ≠ stamp →
              r ∈ find_similar_configurations q t m').
Proof.
  intros Hp m'. subst m'. rewrite (save_step _ _ _ _ _ Hp).
  split; [|split; [|split]].
  - intros id Hne. rewrite load_after_index, load_after_write.
    by rewrite decide_False.
  - done.
  - intros q t r (ref & _ & Hr)%search_elem Hid.
    apply candidate_spec in Hr as (<- & Hl & _).
    rewrite Hid, load_after_index, load_after_write in Hl.
    rewrite decide_True in Hl by done. by injection Hl as <-.
  - intros q t r (ref & Hin & Hr)%search_elem Hid.
    apply search_elem. exists ref. split.
    + cbn [index _save_index]. apply elem_of_app. by left.
    + rewrite <- Hr. apply candidate_ext.
      apply candidate_spec in Hr as (<- & _).
      rewrite load_after_index, load_after_write. by rewrite decide_False.
Qed.

Lemma save_replaces_record_of_same_second_witness :
  project_type (plain_config "data" "etl" ["Python"]) = Some "data"
  ∧ index store_same_second
    = [entry_A;
       new_entry "20250101_120000" "2025-01-01T12:00:00.700000" "data"
         (plain_config "data" "etl" ["Python"])]
  ∧ ∀ r, r ∈ find_similar_configurations query_Q 0 store_same_second →
         ref_config_id (config_ref r) = "20250101_120000" →
         payload (full_config r) = plain_config "data" "etl" ["Python"].
Proof.
  split; [reflexivity|].
  pose proof (save_replaces_record_of_same_second
                "20250101_120000" "2025-01-01T12:00:00.700000"
                (plain_config "data" "etl" ["Python"]) store_A "data" eq_refl)
    as (_ & Hidx & Hnew & _).
  split; [exact Hidx|].
  intros r Hr Hid. by rewrite (Hnew query_Q 0%Q r Hr Hid).
Defined.

Lemma serve_keeps_index_on_disk m r :
  index m = _load_index (index_json m) →
  index (serve m r) = _load_index (index_json (serve m r)).
Proof.
  intros H. destruct r as [stamp iso config|id]; cbn [serve].
  - unfold save_configuration. by destruct (project_type config).
  - unfold reuse_configuration. by destruct (_load_configuration id m).
Qed.

Lemma serve_all_keeps_index_on_disk requests m :
  index m = _load_index (index_json m) →
  index (serve_all requests m) = _load_index (index_json (serve_all requests m)).
Proof.
  unfold serve_all. revert m.
  induction requests as [|r requests IH]; intros m H; [done|].
  cbn [foldl]. apply IH. by apply serve_keeps_index_on_disk.
Qed.

(** X17.  Nothing is held in memory only.  After any sequence of saves and
    reuses on a manager opened on a directory, saves that raise and reuses
    of unknown identifiers included, a manager opened anew on the directory
    is in the same state: its index is the one the first manager holds. *)
Theorem reopened_manager_sees_the_same_state on_disk docs requests :
  init (index_json (serve_all requests (init on_disk docs)))
       (config_json (serve_all requests (init on_disk docs)))
  = serve_all requests (init on_disk docs).
Proof.
  pose proof (serve_all_keeps_index_on_disk requests (init on_disk docs)
                eq_refl) as H.
  destruct (serve_all requests (init on_disk docs)) as [i j c].
  unfold init. cbn in *. by rewrite <- H.
Qed.

(** X18.  A payload without [project_type] makes [save_configuration] raise
    [KeyError], but only after the record was written: the index, in memory
    and on disk, is as before, and so are the statistics; the record loads
    under the identifier, and the records under other identifiers are as
    before.  When no index entry carries the identifier, every search gives
    what it gave before. *)
Theorem save_without_project_type_writes_the_record stamp iso config m :
  project_type config = None →
  let m' := (save_configuration stamp iso config m).1 in
  (save_configuration stamp iso config m).2 = Raised "KeyError: 'project_type'"
  ∧ index m' = index m
  ∧ index_json m' = index_json m
  ∧ get_statistics m' = get_statistics m
  ∧ _load_configuration stamp m' = Some (new_record stamp iso config)
  ∧ (∀ id, id ≠ stamp → _load_configuration id m' = _load_configuration id m)
  ∧ ((∀ e, e ∈ index m → ref_config_id e ≠ stamp) →
     ∀ q t, find_similar_configurations q t m'
            = find_similar_configurations q t m).
Proof.
  intros Hp m'. subst m'. rewrite (save_step_raised _ _ _ _ Hp). cbn [fst snd].
  do 4 (split; [done|]). split; [|split].
  - rewrite load_after_write. by rewrite decide_True.
  - intros id Hne. rewrite load_after_write. by rewrite decide_False.
  - intros Hfree q t. rewrite !search_as_sorted_candidates. f_equal.
    cbn [index _save_configuration]. apply candidates_ext.
    intros ref Hin. rewrite load_after_write.
    rewrite decide_False; [done|]. by apply Hfree.
Qed.

Lemma save_without_project_type_writes_the_record_witness :
  project_type config_without_type = None
  ∧ (∀ e, e ∈ index store_A → ref_config_id e ≠ "20250102_080000")
  ∧ index (save_configuration "20250102_080000" "2025-01-02T08:00:00"
             config_without_type store_A).1 = [entry_A]
  ∧ find_similar_configurations query_Q (1 # 2)
      (save_configuration "20250102_080000" "2025-01-02T08:00:00"
         config_without_type store_A).1
    = find_similar_configurations query_Q (1 # 2) store_A.
Proof.
  assert (∀ e, e ∈ index store_A → ref_config_id e ≠ "20250102_080000")
    as Hfree.
  { intros e He. change (index store_A) with [entry_A] in He.
    apply list_elem_of_singleton in He. by rewrite He. }
  split; [reflexivity|]. split; [exact Hfree|].
  pose proof (save_without_project_type_writes_the_record
                "20250102_080000" "2025-01-02T08:00:00" config_without_type
                store_A eq_refl) as (_ & Hidx & _ & _ & _ & _ & Hsearch).
  split; [exact Hidx|]. exact (Hsearch Hfree query_Q (1 # 2)%Q).
Defined.

Lemma candidate_after_reuse id m c q t ref :
  _load_configuration id m = Some c →
  candidate (reuse_configuration id m).1 q t (bump_ref id ref)
  = reused id <$> candidate m q t ref.
Proof.
  intros Hc. rewrite (reuse_step _ _ _ Hc). cbn [fst].
  unfold candidate. rewrite bump_ref_id, load_after_index, load_after_write.
  destruct (decide (ref_config_id ref = id)) as [Hid|Hid].
  - rewrite Hid, Hc.
    change (_calculate_similarity q (bump c))
      with (_calculate_similarity q c).
    destruct (Qle_bool _ _); [|done]. cbn. unfold reused. cbn.
    by rewrite decide_True.
  - destruct (_load_configuration (ref_config_id ref) m) as [c'|]; [|done].
    destruct (Qle_bool _ _); [|done]. cbn. unfold reused. cbn.
    by rewrite decide_False.
Qed.

Lemma candidates_after_reuse id m c q t (l : list IndexEntry) :
  _load_configuration id m = Some c →
  omap (candidate (reuse_configuration id m).1 q t) (bump_ref id <$> l)
  = reused id <$> omap (candidate m q t) l.
Proof.
  intros Hc. induction l as [|ref l IH]; [done|].
  rewrite fmap_cons. cbn [omap list_omap].
  rewrite (candidate_after_reuse _ _ _ _ _ _ Hc), IH.
  by destruct (candidate m q t ref).
Qed.

Lemma place_reused id x l :
  place (reused id x) (reused id <$> l) = reused id <$> place x l.
Proof.
  induction l as [|y l IH]; [done|].
  rewrite fmap_cons. cbn [place].
  change (similarity (reused id y)) with (similarity y).
  change (similarity (reused id x)) with (similarity x).
  destruct (Qle_bool _ _); [done|]. by rewrite IH.
Qed.

Lemma sort_reused id l :
  sort_by_similarity_desc (reused id <$> l)
  = reused id <$> sort_by_similarity_desc l.
Proof.
  induction l as [|x l IH]; [done|].
  rewrite fmap_cons. unfold sort_by_similarity_desc in *. cbn [foldr].
  by rewrite IH, place_reused.
Qed.

Lemma ranking_reused id l : ranking (reused id <$> l) = ranking l.
Proof.
  unfold ranking. rewrite <- list_fmap_compose. apply list_fmap_ext.
  intros ? r _. cbn. by rewrite bump_ref_id.
Qed.

(** X19.  Reusing a configuration does not change what a search finds.
    After [reuse_configuration] on an identifier whose record loads, every
    search returns the results it returned before, in the same order and
    with the same similarities; the only difference is the reuse count, one
    higher in the index entry and in the full record of the results under
    that identifier. *)
Theorem reuse_keeps_the_ranking id m c q t :
  _load_configuration id m = Some c →
  find_similar_configurations q t (reuse_configuration id m).1
  = reused id <$> find_similar_configurations q t m
  ∧ ranking (find_similar_configurations q t (reuse_configuration id m).1)
    = ranking (find_similar_configurations q t m).
Proof.
  intros Hc.
  assert (find_similar_configurations q t (reuse_configuration id m).1
          = reused id <$> find_similar_configurations q t m) as Heq.
  { rewrite !search_as_sorted_candidates, <- sort_reused.
    rewrite <- (candidates_after_reuse _ _ _ _ _ _ Hc).
    by rewrite (reuse_step _ _ _ Hc). }
  split; [exact Heq|]. rewrite Heq. apply ranking_reused.
Qed.

Lemma reuse_keeps_the_ranking_witness :
  _load_configuration "20250101_120000" store_A = Some stored_A
  ∧ ranking (find_similar_configurations query_Q (1 # 2)
               (reuse_configuration "20250101_120000" store_A).1)
    = ranking (find_similar_configurations query_Q (1 # 2) store_A).
Proof.
  split; [reflexivity|].
  exact (proj2 (reuse_keeps_the_ranking "20250101_120000" store_A stored_A
                  query_Q (1 # 2)%Q eq_refl)).
Defined.

(** ** The binary64 reading *)

(** [binary64] against the floating-point unit of the proof assistant, on
    the operations of the score: literals, a sum of a product of a quotient,
    a tie, a negative number, the first integers that are not floats, and
    the smallest subnormal numbers. *)
Example binary64_agrees_with_primitive_floats :
  binary64 (4 # 10) = exact_value 0.4
  ∧ binary64 (68 # 100) = exact_value 0.68
  ∧ fadd (binary64 (4 # 10)) (fmul (binary64 (4 # 10)) (fdiv 2 4))
    = exact_value (0.4 + 0.4 * (2 / 4))
  ∧ fadd (binary64 (4 # 10)) (fmul (binary64 (4 # 10)) (fdiv 7 10))
    = exact_value (0.4 + 0.4 * (7 / 10))
  ∧ fadd (binary64 (4 # 10)) (fmul (binary64 (4 # 10)) (fdiv 1 16))
    = exact_value (0.4 + 0.4 * (1 / 16))
  ∧ fmul (binary64 (4 # 10)) (fdiv 1 3) = exact_value (0.4 * (1 / 3))
  ∧ fdiv 3 20 = exact_value (3 / 20)
  ∧ binary64 (- (1 # 3)) = exact_value (-1 / 3)
  ∧ binary64 (2 ^ 53 + 1) = exact_value 9007199254740992
  ∧ binary64 (2 ^ 53 + 3) = exact_value 9007199254740996
  ∧ binary64 ((3 # 2) * 2 ^ (-1074)) = exact_value 0x1p-1073
  ∧ binary64 ((1 # 2) * 2 ^ (-1074)) = exact_value 0.
Proof. repeat split; vm_compute; reflexivity. Qed.

(** Where the two readings part.  The score of [query_Q] against record A is
    the float above 0.6, printed 0.6000000000000001.  A score of
    0.4 + 0.4 / 16 is 0.425 exactly and reported as 0.42, level with
    0.4 + 0.4 / 20; in binary64 it lies above 0.425 and is reported as 0.43,
    ahead of the other.  A score of 0.4 + 0.4 * (7 / 10) reaches the
    threshold 0.68 exactly, and stays below it in binary64.  Three reuses
    over twenty records average to 0.2 when 0.15 is exact, and to 0.1 when
    it is the float below 0.15. *)
Example readings_part :
  (Qred (_calculate_similarity query_Q stored_A) = (3 # 5)%Q
   ∧ Binary64._calculate_similarity query_Q stored_A
     = exact_value 0.6000000000000001)
  ∧ (ranking (find_similar_configurations query_data_a 0 store_twenty_sixteen)
     = [("20250104_090000", (21 # 50)%Q); ("20250104_100000", (21 # 50)%Q)]
     ∧ ranking (Binary64.find_similar_configurations query_data_a 0
                  store_twenty_sixteen)
       = [("20250104_100000", binary64 (43 # 100));
          ("20250104_090000", binary64 (42 # 100))])
  ∧ (length (find_similar_configurations query_seven (68 # 100) store_ten)
     = 1%nat
     ∧ Binary64.find_similar_configurations query_seven (binary64 (68 # 100))
         store_ten = [])
  ∧ (Qred (round_half_even ((3 # 20) * 10) # 10) = (1 # 5)%Q
     ∧ round1 (fdiv 3 20) = binary64 (1 # 10)).
Proof. repeat split; vm_compute; reflexivity. Qed.

(** C5, as the code has it.  The store holds record A, the query Q shares
    its project type and two of four technologies.  The score is
    0.4 + 0.4 * (2 / 4) evaluated in binary64: the float next above 0.6, one
    unit in the last place away.  The search at threshold 0.7 returns
    nothing; the search at threshold 0.5 returns A, and the similarity it
    reports, the score rounded to two decimals, is 0.6. *)
Theorem spec_example_scores :
  index store_A = [entry_A]
  ∧ _load_configuration "20250101_120000" store_A = Some stored_A
  ∧ Binary64._calculate_similarity query_Q stored_A
    = fadd (binary64 (4 # 10)) (fmul (binary64 (4 # 10)) (fdiv 2 4))
  ∧ (Binary64._calculate_similarity query_Q stored_A
     == binary64 (6 # 10) + (1 # 2 ^ 53))%Q
  ∧ Binary64.round2 (Binary64._calculate_similarity query_Q stored_A)
    = binary64 (6 # 10)
  ∧ Binary64.find_similar_configurations query_Q (binary64 (7 # 10)) store_A
    = []
  ∧ Binary64.find_similar_configurations query_Q (binary64 (5 # 10)) store_A
    = [ {| config_ref := entry_A; similarity := binary64 (6 # 10);
           full_config := stored_A |} ].
Proof. repeat split; vm_compute; reflexivity. Qed.

(** C5, as stated, fails in its first equation: the score the code computes
    for Q against A is not the float 0.6, nor the number 0.6; it lies above
    both. *)
Lemma unrounded_score_is_above_0_6 :
  Binary64._calculate_similarity query_Q stored_A ≠ binary64 (6 # 10)
  ∧ ¬ (Binary64._calculate_similarity query_Q stored_A == 6 # 10)%Q
  ∧ (binary64 (6 # 10) < Binary64._calculate_similarity query_Q stored_A)%Q
  ∧ (6 # 10 < Binary64._calculate_similarity query_Q stored_A)%Q.
Proof.
  split; [|split; [|split]].
  - vm_compute. discriminate.
  - vm_compute. discriminate.
  - vm_compute. reflexivity.
  - vm_compute. reflexivity.
Qed.

(** The loop appends to its accumulator, entry by entry. *)
Lemma consider_candidate64 m q t acc ref :
  Binary64.consider m q t acc ref
  = (acc ++ option_list (Binary64.candidate m q t ref))%list.
Proof.
  unfold Binary64.consider, Binary64.candidate.
  destruct (_load_configuration _ m); [|by rewrite app_nil_r].
  destruct (Qle_bool _ _); [done|by rewrite app_nil_r].
Qed.

Lemma loop_candidates64 m q t acc l :
  foldl (Binary64.consider m q t) acc l
  = (acc ++ omap (Binary64.candidate m q t) l)%list.
Proof.
  revert acc. induction l as [|ref l IH]; intros acc; cbn [foldl].
  - by rewrite app_nil_r.
  - rewrite IH, consider_candidate64. cbn [omap list_omap].
    destruct (Binary64.candidate m q t ref); cbn; [|by rewrite app_nil_r].
    by rewrite <- app_assoc.
Qed.

Lemma candidate_iff64 m q t ref r :
  Binary64.candidate m q t ref = Some r
  ↔ ∃ config,
      _load_configuration (ref_config_id ref) m = Some config
      ∧ (t <= Binary64._calculate_similarity q config)%Q
      ∧ r = {| config_ref := ref;
               similarity :=
                 Binary64.round2 (Binary64._calculate_similarity q config);
               full_config := config |}.
Proof.
  unfold Binary64.candidate. split.
  - destruct (_load_configuration _ m) as [c|]; [|done].
    destruct (Qle_bool _ _) eqn:Hle; [|done].
    intros [= <-]. exists c. by apply Qle_bool_iff in Hle.
  - intros (c & -> & Hle & ->). apply Qle_bool_iff in Hle. by rewrite Hle.
Qed.

Lemma candidates_in_index_order64 m q t (l : list IndexEntry) :
  config_ref <$> omap (Binary64.candidate m q t) l `sublist_of` l.
Proof.
  induction l as [|ref l IH]; [done|]. cbn [omap list_omap].
  destruct (Binary64.candidate m q t ref) as [r|] eqn:Hr.
  - apply candidate_iff64 in Hr as (c & _ & _ & ->). cbn.
    by apply sublist_skip.
  - by apply sublist_cons.
Qed.

Lemma search_as_sorted_candidates64 q t m :
  Binary64.find_similar_configurations q t m
  = sort_by_similarity_desc (omap (Binary64.candidate m q t) (index m)).
Proof.
  unfold Binary64.find_similar_configurations. by rewrite loop_candidates64.
Qed.

(** Rounding to a float keeps the sign. *)
Lemma binary64_nonneg x : (0 <= x)%Q → (0 <= binary64 x)%Q.
Proof.
  intros Hx. unfold binary64. destruct (Qeq_bool x 0); [apply Qle_refl|].
  rewrite Qred_correct.
  set (quantum := (2 ^ _)%Q).
  assert (0 < quantum)%Q as Hq by (apply Qpower_0_lt; reflexivity).
  apply Qmult_le_0_compat; [|lra].
  change 0%Q with (inject_Z 0). rewrite <- Zle_Qle.
  apply round_half_even_ge. change (inject_Z 0) with 0%Q.
  apply Qle_shift_div_l; [exact Hq|lra].
Qed.

(** The score is a float between 0 and 1. *)
Lemma score64_bounds q c : (0 <= Binary64._calculate_similarity q c <= 1)%Q.
Proof.
  unfold Binary64._calculate_similarity. split; [|apply Q.le_min_r].
  apply Q.min_glb; [|lra].
  assert (0 <= Binary64.weight_project_type)%Q as Hw1
    by (vm_compute; discriminate).
  assert (0 <= Binary64.weight_tech_stack)%Q as Hw2
    by (vm_compute; discriminate).
  set (s0 := if decide (info_project_type q = project_type (payload c))
             then _ else _).
  assert (0 <= s0)%Q as Hs0.
  { subst s0.
    destruct (decide (info_project_type q = project_type (payload c)));
      [|apply Qle_refl].
    apply binary64_nonneg. lra. }
  clearbody s0. destruct (_ && _); [|exact Hs0].
  set (ts := if decide (0 < _)%nat then _ else _).
  assert (0 <= ts)%Q as Hts.
  { subst ts. destruct (decide (0 < _)%nat) as [Hu|_]; [|apply Qle_refl].
    apply binary64_nonneg. apply Qle_shift_div_l.
    - change 0%Q with (inject_Z 0). rewrite <- Zlt_Qlt. lia.
    - rewrite Qmult_0_l. change 0%Q with (inject_Z 0). rewrite <- Zle_Qle.
      lia. }
  clearbody ts. apply binary64_nonneg.
  assert (0 <= fmul Binary64.weight_tech_stack ts)%Q; [|lra].
  apply binary64_nonneg. by apply Qmult_le_0_compat.
Qed.

(** Reading a number of hundredths back as a float moves it by less than a
    unit in the last place of 1. *)
Lemma binary64_hundredths n :
  (0 ≤ n ≤ 100)%Z →
  (inject_Z n / 100 - (1 # 2 ^ 53) <= binary64 (inject_Z n / 100))%Q.
Proof.
  intros Hn.
  assert (forallb
            (λ k, Qle_bool (inject_Z (Z.of_nat k) / 100 - (1 # 2 ^ 53))
                    (binary64 (inject_Z (Z.of_nat k) / 100)))
            (seq 0 101) = true) as Hall by (vm_compute; reflexivity).
  rewrite forallb_forall in Hall.
  specialize (Hall (Z.to_nat n)). rewrite Z2Nat.id in Hall by lia.
  apply Qle_bool_iff, Hall, in_seq. lia.
Qed.

(** [round(x, 2)] of a float between 0 and 1 is within 0.005 of it, up to
    the rounding of the result. *)
Lemma round2_64_close x :
  (0 <= x <= 1)%Q →
  (x - (1 # 200) - (1 # 2 ^ 53) <= Binary64.round2 x)%Q.
Proof.
  intros [H0 H1]. unfold Binary64.round2, py_round.
  change (inject_Z (10 ^ Z.of_nat 2)) with 100%Q.
  pose proof (round_half_even_close (x * 100)) as [Hlo _].
  assert (0 ≤ round_half_even (x * 100) ≤ 100)%Z as Hn.
  { split.
    - apply round_half_even_ge. change (inject_Z 0) with 0%Q. lra.
    - apply round_half_even_le. change (inject_Z 100) with 100%Q. lra. }
  pose proof (binary64_hundredths _ Hn) as Hb.
  assert (x - (1 # 200) <= inject_Z (round_half_even (x * 100)) / 100)%Q;
    [|lra].
  apply Qle_shift_div_l; lra.
Qed.

(** C6, as the code has it.  Every returned entry comes from an index entry
    whose record loads, and the score of the query against that record is at
    least the threshold.  The similarity it reports is that score rounded to
    two decimals, so it may lie below the threshold, by at most 0.005 and
    the rounding of one float.  The sequence is sorted by reported
    similarity, largest first, and the entries reporting one and the same
    similarity appear in index order. *)
Theorem search_is_filtered_and_sorted q t m :
  (∀ r, r ∈ Binary64.find_similar_configurations q t m →
     config_ref r ∈ index m
     ∧ _load_configuration (ref_config_id (config_ref r)) m
       = Some (full_config r)
     ∧ (t <= Binary64._calculate_similarity q (full_config r))%Q
     ∧ similarity r
       = Binary64.round2 (Binary64._calculate_similarity q (full_config r))
     ∧ (t - (1 # 200) - (1 # 2 ^ 53) <= similarity r)%Q)
  ∧ StronglySorted before (Binary64.find_similar_configurations q t m)
  ∧ (∀ s, config_ref <$> with_key s (Binary64.find_similar_configurations q t m)
          `sublist_of` index m).
Proof.
  rewrite search_as_sorted_candidates64.
  split; [|split].
  - intros r Hr. rewrite sort_elem in Hr.
    apply list_elem_of_omap in Hr as (ref & Hin & Hc).
    apply candidate_iff64 in Hc as (c & Hl & Ht & ->). cbn.
    do 4 (split; [done|]).
    pose proof (round2_64_close _ (score64_bounds q c)). lra.
  - apply sort_sorted.
  - intros s. rewrite sort_with_key.
    trans (config_ref <$> omap (Binary64.candidate m q t) (index m)).
    + apply fmap_sublist, with_key_sublist.
    + apply candidates_in_index_order64.
Qed.

(** C6, as stated, fails at two inputs.  At threshold 0.132 the search
    returns an entry whose score is 0.4 * (1 / 3) and whose reported
    similarity is 0.13, below the threshold.  And with a record scoring
    0.4 * (1 / 10) stored before one scoring 0.4 * (1 / 9), both are
    reported as 0.04 and returned in index order, the smaller score first.
    So it is not true that every returned entry reports a score at or above
    the threshold. *)
Lemma reported_similarity_is_rounded :
  (similarity
     <$> Binary64.find_similar_configurations query_a (binary64 (132 # 1000))
           store_third
   = [binary64 (13 # 100)]
   ∧ (binary64 (13 # 100) < binary64 (132 # 1000))%Q)
  ∧ (similarity
       <$> Binary64.find_similar_configurations query_a 0%Q store_tenth_ninth
     = [binary64 (4 # 100); binary64 (4 # 100)]
     ∧ (λ r, Binary64._calculate_similarity query_a (full_config r))
         <$> Binary64.find_similar_configurations query_a 0%Q
               store_tenth_ninth
       = [fmul (binary64 (4 # 10)) (fdiv 1 10);
          fmul (binary64 (4 # 10)) (fdiv 1 9)]
     ∧ (fmul (binary64 (4 # 10)) (fdiv 1 10)
        < fmul (binary64 (4 # 10)) (fdiv 1 9))%Q)
  ∧ ¬ (∀ q t m r, r ∈ Binary64.find_similar_configurations q t m →
                  (t <= similarity r)%Q).
Proof.
  split; [split; vm_compute; reflexivity|].
  split; [repeat split; vm_compute; reflexivity|].
  intros H.
  assert (∃ r, r ∈ Binary64.find_similar_configurations query_a
                     (binary64 (132 # 1000)) store_third
               ∧ (similarity r < binary64 (132 # 1000))%Q) as (r & Hin & Hlt).
  { eexists. split.
    - vm_compute. apply list_elem_of_here.
    - vm_compute. reflexivity. }
  apply (Qlt_not_le _ _ Hlt). by apply (H query_a _ store_third).
Qed.

(** X10.  The search misses nothing.  An entry is returned exactly when it
    is built from an index entry whose record loads and whose score, as
    computed in binary64, is at least the threshold; so there are at most as
    many results as index entries, and whatever is returned at one threshold
    is returned at every lower one. *)
Theorem search_is_complete q t m :
  (∀ r, r ∈ Binary64.find_similar_configurations q t m
        ↔ ∃ ref config,
            ref ∈ index m
            ∧ _load_configuration (ref_config_id ref) m = Some config
            ∧ (t <= Binary64._calculate_similarity q config)%Q
            ∧ r = {| config_ref := ref;
                     similarity :=
                       Binary64.round2
                         (Binary64._calculate_similarity q config);
                     full_config := config |})
  ∧ (length (Binary64.find_similar_configurations q t m)
     ≤ length (index m))%nat
  ∧ ∀ t' r, (t' <= t)%Q → r ∈ Binary64.find_similar_configurations q t m →
            r ∈ Binary64.find_similar_configurations q t' m.
Proof.
  assert (∀ t r, r ∈ Binary64.find_similar_configurations q t m
                 ↔ ∃ ref config,
                     ref ∈ index m
                     ∧ _load_configuration (ref_config_id ref) m = Some config
                     ∧ (t <= Binary64._calculate_similarity q config)%Q
                     ∧ r = {| config_ref := ref;
                              similarity :=
                                Binary64.round2
                                  (Binary64._calculate_similarity q config);
                              full_config := config |}) as Hiff.
  { intros t0 r. rewrite search_as_sorted_candidates64, sort_elem,
      list_elem_of_omap. split.
    - intros (ref & Hin & (c & ? & ? & ?)%candidate_iff64). by exists ref, c.
    - intros (ref & c & Hin & ? & ? & ?). exists ref. split; [done|].
      apply candidate_iff64. by exists c. }
  split; [apply Hiff|]. split.
  - rewrite search_as_sorted_candidates64, sort_length. apply omap_length.
  - intros t' r Hle. rewrite !Hiff.
    intros (ref & c & ? & ? & ? & ?). exists ref, c. repeat split; try done.
    by apply Qle_trans with t.
Qed.

End ReuseFacts.
